(** * PDF_Converter: the image lifecycle of [src/App.tsx]

    A shallow embedding of the [App] component: the collection of
    [ManagedImage] entries, the handlers that admit, update, remove and clear
    entries, the continuations of the two asynchronous capabilities
    ([upscaleImage], [generatePdfFromImages]) and the browser's object-URL
    registry ([URL.createObjectURL] / [URL.revokeObjectURL]).

    The component state is threaded explicitly through every handler as a
    [World].  What the environment decides (the outcome of [Math.random],
    of [Date.now], of the two external promises) is carried by the event
    that triggers the handler. *)

From Stdlib Require Import List String Ascii Bool Arith Lia Permutation.
From Stdlib Require Import DecimalString.
Import ListNotations.
Local Open Scope string_scope.
Local Open Scope list_scope.

(** ** Data model (lines 6-12) *)

(** A blob URL as handed out by [URL.createObjectURL]; the browser never
    hands out the same one twice, so a counter stands for it. *)
Definition Url := nat.

(** The parts of a DOM [File] the component looks at. *)
Record File := mkFile {
  name : string;
  type : string;
  data : string
}.

Inductive Status := Upscaling | Ready | Error.

Definition Status_eqb (a b : Status) : bool :=
  match a, b with
  | Upscaling, Upscaling | Ready, Ready | Error, Error => true
  | _, _ => false
  end.

Record ManagedImage := mkImage {
  id : string;
  file : File;
  previewUrl : Url;
  status : Status;
  errorMessage : option string
}.

(** One entry of [event.clipboardData.items]. *)
Record DataTransferItem := mkItem {
  itemType : string;
  getAsFile : option File
}.

(** ** The state threaded through the handlers

    The first four fields are the [useState] cells of lines 15-18.  The
    others are the part of the environment the handlers act on: the object
    URL registry, the transforms awaiting settlement, the calls made to the
    assembly capability.  [issued] is a history variable: every id computed
    at lines 51 and 100, in order. *)
Record World := mkWorld {
  managedImages : list ManagedImage;
  isGenerating : bool;
  error : option string;
  successMessage : option string;
  nextUrl : nat;
  created : list Url;
  revoked : list Url;
  inFlight : list string;
  issued : list string;
  pdfCalls : list (list File)
}.

Definition setManagedImages (v : list ManagedImage) (w : World) : World :=
  mkWorld v (isGenerating w) (error w) (successMessage w) (nextUrl w)
          (created w) (revoked w) (inFlight w) (issued w) (pdfCalls w).

Definition setIsGenerating (v : bool) (w : World) : World :=
  mkWorld (managedImages w) v (error w) (successMessage w) (nextUrl w)
          (created w) (revoked w) (inFlight w) (issued w) (pdfCalls w).

Definition setError (v : option string) (w : World) : World :=
  mkWorld (managedImages w) (isGenerating w) v (successMessage w) (nextUrl w)
          (created w) (revoked w) (inFlight w) (issued w) (pdfCalls w).

Definition setSuccessMessage (v : option string) (w : World) : World :=
  mkWorld (managedImages w) (isGenerating w) (error w) v (nextUrl w)
          (created w) (revoked w) (inFlight w) (issued w) (pdfCalls w).

Definition setInFlight (v : list string) (w : World) : World :=
  mkWorld (managedImages w) (isGenerating w) (error w) (successMessage w)
          (nextUrl w) (created w) (revoked w) v (issued w) (pdfCalls w).

Definition recordIssued (i : string) (w : World) : World :=
  mkWorld (managedImages w) (isGenerating w) (error w) (successMessage w)
          (nextUrl w) (created w) (revoked w) (inFlight w) (issued w ++ [i])
          (pdfCalls w).

Definition recordPdfCall (images : list File) (w : World) : World :=
  mkWorld (managedImages w) (isGenerating w) (error w) (successMessage w)
          (nextUrl w) (created w) (revoked w) (inFlight w) (issued w)
          (pdfCalls w ++ [images]).

(** [URL.createObjectURL]: a fresh handle, logged. *)
Definition createObjectURL (w : World) : Url * World :=
  (nextUrl w,
   mkWorld (managedImages w) (isGenerating w) (error w) (successMessage w)
           (S (nextUrl w)) (created w ++ [nextUrl w]) (revoked w)
           (inFlight w) (issued w) (pdfCalls w)).

(** [URL.revokeObjectURL]: logged, whether or not the handle is live. *)
Definition revokeObjectURL (u : Url) (w : World) : World :=
  mkWorld (managedImages w) (isGenerating w) (error w) (successMessage w)
          (nextUrl w) (created w) (revoked w ++ [u]) (inFlight w) (issued w)
          (pdfCalls w).

(** The state of the first render: every [useState] initial value, and an
    environment in which nothing has happened yet. *)
Definition App_mount : World :=
  mkWorld [] false None None 0 [] [] [] [] [].

(** ** Strings *)

(** Template-literal rendering of a non-negative integer. *)
Definition decimal (n : nat) : string :=
  NilEmpty.string_of_uint (Nat.to_uint n).

(** [s.split(sep)] for a one-character separator. *)
Fixpoint split (sep : ascii) (s : string) : list string :=
  match s with
  | EmptyString => [EmptyString]
  | String c rest =>
      if Ascii.eqb c sep then EmptyString :: split sep rest
      else match split sep rest with
           | hd :: tl => String c hd :: tl
           | [] => [String c EmptyString]
           end
  end.

(** [type.startsWith('image/')] *)
Definition isImageType (t : string) : bool := String.prefix "image/" t.

(** Line 51 and line 100: the file name, a dash, the rendering of the
    [Math.random()] draw. *)
Definition makeId (f : File) (draw : string) : string :=
  (name f ++ "-" ++ draw)%string.

(** ** Admission *)

(** The [map] of lines 50-55 and 99-104.  [rnd k] is the rendering of the
    [Math.random()] draw made for the [k]-th file of the batch. *)
Fixpoint newEntries (st : Status) (rnd : nat -> string) (k : nat)
         (files : list File) (w : World) : list ManagedImage * World :=
  match files with
  | [] => ([], w)
  | f :: rest =>
      let i := makeId f (rnd k) in
      let (u, w1) := createObjectURL (recordIssued i w) in
      let (entries, w2) := newEntries st rnd (S k) rest w1 in
      (mkImage i f u st None :: entries, w2)
  end.

(** Lines 90-112. *)
Definition fileWarning : string :=
  "Some selected files were not valid images and have been ignored.".

Definition handleFileChange (files : option (list File)) (rnd : nat -> string)
           (w : World) : World :=
  let w := setSuccessMessage None (setError None w) in
  match files with
  | None => w
  | Some fs =>
      let validImages := filter (fun f => isImageType (type f)) fs in
      let w :=
        if (List.length validImages =? List.length fs)%nat then w
        else setError (Some fileWarning) w in
      let (entries, w) := newEntries Ready rnd 0 validImages w in
      let w := setManagedImages (managedImages w ++ entries) w in
      if (0 <? List.length validImages)%nat
      then setSuccessMessage
             (Some (decimal (List.length validImages) ++ " image(s) selected.")%string) w
      else w
  end.

(** The loop of lines 33-44.  [clock i] is what [Date.now()] returns in
    iteration [i]. *)
Fixpoint pastedImages (clock : nat -> nat) (i : nat)
         (items : list DataTransferItem) : list File :=
  match items with
  | [] => []
  | it :: rest =>
      let tail := pastedImages clock (S i) rest in
      if isImageType (itemType it) then
        match getAsFile it with
        | Some blob =>
            let extension :=
              match nth_error (split "/" (type blob)) 1 with
              | Some e => if (e =? "")%string then "png" else e
              | None => "png"
              end in
            let fileName :=
              ("pasted-image-" ++ decimal (clock i) ++ "-" ++ decimal i
                 ++ "." ++ extension)%string in
            mkFile fileName (type blob) (data blob) :: tail
        | None => tail
        end
      else tail
  end.

(** Lines 29-81, up to the point where the transforms are submitted: each
    new entry's id joins [inFlight] when [upscaleImage] is called on it. *)
Definition handlePaste (items : option (list DataTransferItem))
           (clock : nat -> nat) (rnd : nat -> string) (w : World) : World :=
  match items with
  | None => w
  | Some its =>
      let pasted := pastedImages clock 0 its in
      if (0 <? List.length pasted)%nat then
        let w := setSuccessMessage
                   (Some (decimal (List.length pasted)
                            ++ " image(s) pasted. Upscaling...")%string) w in
        let w := setError None w in
        let (entries, w) := newEntries Upscaling rnd 0 pasted w in
        let w := setManagedImages (managedImages w ++ entries) w in
        setInFlight (inFlight w ++ map id entries) w
      else w
  end.

(** ** The continuations of [upscaleImage] *)

(** The updater of lines 63-69: a [map] whose callback revokes the old
    preview of each entry it replaces. *)
Fixpoint swapContent (entryId : string) (upscaledFile : File)
         (newPreviewUrl : Url) (prev : list ManagedImage) (w : World)
  : list ManagedImage * World :=
  match prev with
  | [] => ([], w)
  | img :: rest =>
      if (id img =? entryId)%string then
        let w1 := revokeObjectURL (previewUrl img) w in
        let (rest', w2) :=
          swapContent entryId upscaledFile newPreviewUrl rest w1 in
        (mkImage (id img) upscaledFile newPreviewUrl Ready (errorMessage img)
           :: rest', w2)
      else
        let (rest', w2) :=
          swapContent entryId upscaledFile newPreviewUrl rest w in
        (img :: rest', w2)
  end.

(** Lines 61-71. *)
Definition upscale_then (entryId : string) (upscaledFile : File) (w : World)
  : World :=
  let (newPreviewUrl, w) := createObjectURL w in
  let (next, w) :=
    swapContent entryId upscaledFile newPreviewUrl (managedImages w) w in
  let w := setManagedImages next w in
  setSuccessMessage (Some "Image upscaling complete!") w.

Definition markFailed (entryId : string) (img : ManagedImage) : ManagedImage :=
  if (id img =? entryId)%string
  then mkImage (id img) (file img) (previewUrl img) Error
               (Some "Upscaling failed.")
  else img.

(** Lines 72-78 (the [console.error] call leaves no trace in the state). *)
Definition upscale_catch (entryId : string) (w : World) : World :=
  let w := setManagedImages (map (markFailed entryId) (managedImages w)) w in
  setError (Some "Some images could not be upscaled.") w.

(** ** Assembly (lines 114-135) *)

Definition noReadyMessage : string :=
  "Please add at least one ready image. If images are upscaling, please wait.".

Definition imagesToProcess (w : World) : list File :=
  map file (filter (fun img => Status_eqb (status img) Ready) (managedImages w)).

(** Up to the [await]: either the early return, or the call. *)
Definition handleGeneratePdf (w : World) : World :=
  if (List.length (imagesToProcess w) =? 0)%nat then
    setError (Some noReadyMessage) w
  else
    let w := setIsGenerating true w in
    let w := setError None w in
    let w := setSuccessMessage None w in
    recordPdfCall (imagesToProcess w) w.

(** After the [await]: [None] when the promise resolved, [Some m] when it
    rejected with an error whose message is [m]. *)
Definition handleGeneratePdf_settled (failure : option string) (w : World)
  : World :=
  let w :=
    match failure with
    | None => setSuccessMessage (Some "PDF generated successfully!") w
    | Some m => setError (Some ("Failed to generate PDF: " ++ m)%string) w
    end in
  setIsGenerating false w.

(** ** Clear and remove (lines 137-155) *)

Definition revokeAll (images : list ManagedImage) (w : World) : World :=
  fold_left (fun acc img => revokeObjectURL (previewUrl img) acc) images w.

(** The reset of the file input's value is not part of the state. *)
Definition handleClearImages (w : World) : World :=
  let w := revokeAll (managedImages w) w in
  let w := setManagedImages [] w in
  let w := setError None w in
  setSuccessMessage None w.

Definition handleRemoveImage (idToRemove : string) (w : World) : World :=
  let prev := managedImages w in
  let w :=
    match find (fun img => (id img =? idToRemove)%string) prev with
    | Some imageToRemove => revokeObjectURL (previewUrl imageToRemove) w
    | None => w
    end in
  setManagedImages
    (filter (fun img => negb (id img =? idToRemove)%string) prev) w.

(** ** Teardown (lines 21-26)

    The effect has an empty dependency list: it runs once, after the first
    render, and the cleanup it returns closes over the [managedImages]
    binding of that render.  [unmountCleanup] is that closure with its
    captured binding made a parameter; [App_unmount] supplies the binding
    it was created with. *)
Definition unmountCleanup (captured : list ManagedImage) (w : World) : World :=
  revokeAll captured w.

Definition App_unmount (w : World) : World :=
  unmountCleanup (managedImages App_mount) w.

(** ** What the render makes of the state (lines 210 and 252) *)

Definition isUpscaling (img : ManagedImage) : bool :=
  Status_eqb (status img) Upscaling.

Definition controlsRendered (w : World) : bool :=
  (0 <? List.length (managedImages w))%nat.

Definition generateDisabled (w : World) : bool :=
  isGenerating w || existsb isUpscaling (managedImages w).

(** A click on the Generate PDF button reaches [onClick] only when the
    button is in the document and not disabled. *)
Definition clickGeneratePdf (w : World) : World :=
  if controlsRendered w && negb (generateDisabled w)
  then handleGeneratePdf w
  else w.

(** ** Events *)

Inductive Event :=
| SelectFiles (files : option (list File)) (rnd : nat -> string)
| PasteClipboard (items : option (list DataTransferItem))
                 (clock : nat -> nat) (rnd : nat -> string)
| UpscaleResolved (entryId : string) (upscaledFile : File)
| UpscaleRejected (entryId : string)
| ClickGenerate
| PdfSettled (failure : option string)
| ClearImages
| RemoveImage (idToRemove : string).

Definition mem (i : string) (l : list string) : bool :=
  existsb (String.eqb i) l.

Fixpoint removeFirst (i : string) (l : list string) : list string :=
  match l with
  | [] => []
  | j :: rest => if (j =? i)%string then rest else j :: removeFirst i rest
  end.

(** A promise settles once, and only if it was created: a transform can
    settle only while it is in flight, the assembly only while one is
    awaited. *)
Definition enabled (w : World) (e : Event) : bool :=
  match e with
  | UpscaleResolved i _ | UpscaleRejected i => mem i (inFlight w)
  | PdfSettled _ => isGenerating w
  | _ => true
  end.

Definition step (w : World) (e : Event) : World :=
  match e with
  | SelectFiles files rnd => handleFileChange files rnd w
  | PasteClipboard items clock rnd => handlePaste items clock rnd w
  | UpscaleResolved i f =>
      upscale_then i f (setInFlight (removeFirst i (inFlight w)) w)
  | UpscaleRejected i =>
      upscale_catch i (setInFlight (removeFirst i (inFlight w)) w)
  | ClickGenerate => clickGeneratePdf w
  | PdfSettled failure => handleGeneratePdf_settled failure w
  | ClearImages => handleClearImages w
  | RemoveImage i => handleRemoveImage i w
  end.

Fixpoint exec (w : World) (es : list Event) : option World :=
  match es with
  | [] => Some w
  | e :: rest => if enabled w e then exec (step w e) rest else None
  end.

(** Admission, removal and clearing: the operations that never resume a
    transform. *)
Definition isCollectionOp (e : Event) : bool :=
  match e with
  | SelectFiles _ _ | PasteClipboard _ _ _ | ClearImages | RemoveImage _ => true
  | _ => false
  end.

(** The handles created and not revoked. *)
Definition liveHandles (w : World) : list Url :=
  filter (fun u => negb (existsb (Nat.eqb u) (revoked w))) (created w).

Definition ids (w : World) : list string := map id (managedImages w).

(** ** Closed forms of the traversals *)

(** The entries [newEntries] builds when the next free handle is [u]. *)
Fixpoint entriesFrom (st : Status) (rnd : nat -> string) (k : nat) (u : Url)
         (files : list File) : list ManagedImage :=
  match files with
  | [] => []
  | f :: rest =>
      mkImage (makeId f (rnd k)) f u st None
        :: entriesFrom st rnd (S k) (S u) rest
  end.

(** What [swapContent] puts in place of an entry. *)
Definition swapped (entryId : string) (upscaledFile : File) (u : Url)
           (img : ManagedImage) : ManagedImage :=
  if (id img =? entryId)%string
  then mkImage (id img) upscaledFile u Ready (errorMessage img)
  else img.

Definition hasId (i : string) (img : ManagedImage) : bool :=
  (id img =? i)%string.

(** ** The specification's wording of two inputs *)

(** The assembly input as section 4.5 words it: the content of every
    entry in [Ready] state, in collection order; [Upscaling] and [Error]
    entries contribute nothing. *)
Fixpoint readyContents (images : list ManagedImage) : list File :=
  match images with
  | [] => []
  | img :: rest =>
      match status img with
      | Ready => file img :: readyContents rest
      | Upscaling | Error => readyContents rest
      end
  end.

(** The clipboard payloads a paste admits: the declared kind and the bytes
    of every image-typed item that carries a blob, in clipboard order. *)
Fixpoint acceptedBlobs (items : list DataTransferItem)
  : list (string * string) :=
  match items with
  | [] => []
  | it :: rest =>
      match isImageType (itemType it), getAsFile it with
      | true, Some blob => (type blob, data blob) :: acceptedBlobs rest
      | _, _ => acceptedBlobs rest
      end
  end.

Definition payload (img : ManagedImage) : string * string :=
  (type (file img), data (file img)).

(** ** Scenarios *)

Definition photo : File := mkFile "a.png" "image/png" "AAAA".
Definition notes : File := mkFile "notes.txt" "text/plain" "tttt".
Definition enhanced : File := mkFile "a-upscaled.png" "image/png" "AAAAAAAA".

(** A random source that keeps returning the same draw. *)
Definition half (_ : nat) : string := "0.5".

(** A clock that does not advance during the handler. *)
Definition noon (_ : nat) : nat := 5.

Definition clipboard : list DataTransferItem :=
  [mkItem "text/plain" None;
   mkItem "image/png" (Some (mkFile "image.png" "image/png" "PPPP"))].

Definition pastedId : string := "pasted-image-5-1.png-0.5".

(** The entry a paste of [clipboard] admits at [noon] with draw [half],
    when handle [1] is the next free one. *)
Definition pastedEntry : ManagedImage :=
  mkImage pastedId (mkFile "pasted-image-5-1.png" "image/png" "PPPP")
          1 Upscaling None.

(** One file selected. *)
Definition selectedWorld : World :=
  step App_mount (SelectFiles (Some [photo]) half).

(** One image pasted, its transform in flight. *)
Definition pastedWorld : World :=
  step App_mount (PasteClipboard (Some clipboard) noon half).

(** One image pasted, then removed while its transform is in flight. *)
Definition staleWorld : World := step pastedWorld (RemoveImage pastedId).

(** One image pasted, its transform failed. *)
Definition failedWorld : World := step pastedWorld (UpscaleRejected pastedId).

(** One file selected, then one image pasted: a [Ready] entry next to an
    [Upscaling] one. *)
Definition mixedWorld : World :=
  step selectedWorld (PasteClipboard (Some clipboard) noon half).

(** ** What one step admits *)

(** The entries an event appends to the collection when it is handled in
    state [w]; [[]] for the events that admit nothing. *)
Definition admitted (w : World) (e : Event) : list ManagedImage :=
  match e with
  | SelectFiles (Some fs) rnd =>
      entriesFrom Ready rnd 0 (nextUrl w)
                  (filter (fun f => isImageType (type f)) fs)
  | PasteClipboard (Some its) clock rnd =>
      entriesFrom Upscaling rnd 0 (nextUrl w) (pastedImages clock 0 its)
  | _ => []
  end.

(** ** Invariants *)

(** Every id in the collection was issued, and no two entries share one. *)
Definition idsUnique (w : World) : Prop :=
  incl (ids w) (issued w) /\ NoDup (ids w).

(** The registry: handles are numbered from [0], and each handle created
    is either revoked once or held by one entry. *)
Definition ledgerBalanced (w : World) : Prop :=
  created w = seq 0 (nextUrl w)
  /\ Permutation (created w)
                 (revoked w ++ map previewUrl (managedImages w)).

(** The transforms in flight are distinct, were all issued, and belong to
    no entry that has left [Upscaling]. *)
Definition transformsTracked (w : World) : Prop :=
  incl (inFlight w) (issued w)
  /\ NoDup (inFlight w)
  /\ forall img, In img (managedImages w) ->
                 status img <> Upscaling -> ~ In (id img) (inFlight w).

(** The status of an entry [after], given the status it had [before]:
    the same, or settled from [Upscaling]. *)
Definition settles (before after : Status) : Prop :=
  after = before \/ (before = Upscaling /\ (after = Ready \/ after = Error)).

(** A decision procedure for the absence of repetitions in a list of ids. *)
Fixpoint distinct (l : list string) : bool :=
  match l with
  | [] => true
  | i :: rest => negb (mem i rest) && distinct rest
  end.

(** ** Scenarios with a repeated id, and two longer runs *)

(** The same file selected twice, with the same draw both times. *)
Definition twiceWorld : World :=
  step selectedWorld (SelectFiles (Some [photo]) half).

(** The same file selected twice with the same draw, then removed by its
    id. *)
Definition twiceRemovedWorld : World :=
  step twiceWorld (RemoveImage "a.png-0.5").

(** A file on disk that bears the name a paste would synthesise. *)
Definition lookalike : File :=
  mkFile "pasted-image-5-1.png" "image/png" "LLLL".

(** That file selected, then an image pasted at [noon], with the same
    draw both times: two entries with one id, one transform in flight. *)
Definition collidedWorld : World :=
  step (step App_mount (SelectFiles (Some [lookalike]) half))
       (PasteClipboard (Some clipboard) noon half).

(** The same clipboard pasted twice at [noon] with the same draw: two
    entries with one id, two transforms in flight. *)
Definition pastedTwiceWorld : World :=
  step pastedWorld (PasteClipboard (Some clipboard) noon half).

(** Two files selected, one of them not an image, then an image pasted,
    then the selected image removed. *)
Definition tidyRun : list Event :=
  [SelectFiles (Some [photo; notes]) half;
   PasteClipboard (Some clipboard) noon half;
   RemoveImage "a.png-0.5"].

Definition tidyWorld : World :=
  step (step (step App_mount (SelectFiles (Some [photo; notes]) half))
             (PasteClipboard (Some clipboard) noon half))
       (RemoveImage "a.png-0.5").

(** From [mixedWorld]: the transform succeeds, then the selected image is
    removed. *)
Definition settledWorld : World :=
  step (step mixedWorld (UpscaleResolved pastedId enhanced))
       (RemoveImage "a.png-0.5").

(** The pasted entry of [mixedWorld] once its transform has succeeded. *)
Definition settledEntry : ManagedImage :=
  mkImage pastedId enhanced 2 Ready None.

(** ** Tactics *)

(** Closes a goal between closed terms by evaluating both sides. *)
Ltac evaluate := vm_compute; reflexivity.

(** Splits a conjunction into its conjuncts, and nothing else. *)
Ltac conjuncts := repeat match goal with |- _ /\ _ => split end.


From Stdlib Require DecimalNat.

(** ** More of the render, and measures on runs *)

(** The text of the overlay an entry in [Error] state gets (lines
    227-232): its [errorMessage], or the fallback when that is missing or
    empty; no overlay for the other states. *)
Definition errorOverlay (image : ManagedImage) : option string :=
  match status image with
  | Error =>
      Some match errorMessage image with
           | Some m => if (m =? "")%string then "An error occurred" else m
           | None => "An error occurred"
           end
  | Upscaling | Ready => None
  end.

(** The assemblies of a run that have settled. *)
Fixpoint settledCount (es : list Event) : nat :=
  match es with
  | [] => 0
  | PdfSettled _ :: rest => S (settledCount rest)
  | _ :: rest => settledCount rest
  end.

(** The assemblies awaited in a state: one while [isGenerating], none
    otherwise. *)
Definition awaited (w : World) : nat := if isGenerating w then 1 else 0.

(** The file name line 39 builds in iteration [i] at time [now]. *)
Definition pastedName (now i : nat) (extension : string) : string :=
  ("pasted-image-" ++ decimal now ++ "-" ++ decimal i ++ "."
     ++ extension)%string.

Definition isDigit (c : ascii) : bool :=
  (48 <=? nat_of_ascii c)%nat && (nat_of_ascii c <=? 57)%nat.

Fixpoint digits (s : string) : bool :=
  match s with
  | EmptyString => true
  | String c rest => isDigit c && digits rest
  end.

(** From [selectedWorld]: the assembly is started, fails, and is started
    again. *)
Definition retryRun : list Event :=
  [SelectFiles (Some [photo]) half; ClickGenerate;
   PdfSettled (Some "out of memory"); ClickGenerate].

Definition retryWorld : World :=
  step (step (step selectedWorld ClickGenerate)
             (PdfSettled (Some "out of memory")))
       ClickGenerate.

(** The failed entry of [failedWorld]. *)
Definition failedEntry : ManagedImage :=
  mkImage pastedId (mkFile "pasted-image-5-1.png" "image/png" "PPPP")
          0 Error (Some "Upscaling failed.").

(** A clipboard that carries two images and a text item between them. *)
Definition album : list DataTransferItem :=
  [mkItem "image/png" (Some (mkFile "image.png" "image/png" "PPPP"));
   mkItem "text/html" None;
   mkItem "image/jpeg" (Some (mkFile "image.jpg" "image/jpeg" "JJJJ"))].

(** A clipboard with nothing the paste path accepts: a text item, and an
    image item whose blob is missing. *)
Definition textOnly : list DataTransferItem :=
  [mkItem "text/plain" None; mkItem "image/png" None].

(** ** The handles one step creates *)








(** The entry of [selectedWorld]. *)
Definition selectedEntry : ManagedImage :=
  mkImage "a.png-0.5" photo 0 Ready None.

(** From [mixedWorld]: the transform succeeds. *)
Definition resolvedWorld : World :=
  step mixedWorld (UpscaleResolved pastedId enhanced).

(** * Closed forms

    Each handler threads the [World] through a traversal.  The lemmas of
    this part give the result of every traversal as one record, so that
    the later proofs reason on lists and not on the threading. *)

Lemma entriesFrom_file st rnd files :
  forall k u, map file (entriesFrom st rnd k u files) = files.
Proof.
  induction files as [|f rest IH]; intros k u; simpl; [reflexivity|].
  now rewrite IH.
Qed.

Lemma entriesFrom_previewUrl st rnd files :
  forall k u,
    map previewUrl (entriesFrom st rnd k u files) = seq u (List.length files).
Proof.
  induction files as [|f rest IH]; intros k u; simpl; [reflexivity|].
  now rewrite IH.
Qed.

Lemma entriesFrom_status st rnd files :
  forall k u img, In img (entriesFrom st rnd k u files) -> status img = st.
Proof.
  induction files as [|f rest IH]; intros k u img; simpl; [tauto|].
  intros [<-|Hin]; [reflexivity|]. eapply IH; eassumption.
Qed.

Lemma entriesFrom_length st rnd files :
  forall k u, List.length (entriesFrom st rnd k u files) = List.length files.
Proof.
  intros k u. rewrite <- (length_map file), entriesFrom_file. reflexivity.
Qed.

Lemma newEntries_eq st rnd files :
  forall k w,
    newEntries st rnd k files w =
    (entriesFrom st rnd k (nextUrl w) files,
     mkWorld (managedImages w) (isGenerating w) (error w) (successMessage w)
             (nextUrl w + List.length files)
             (created w ++ seq (nextUrl w) (List.length files))
             (revoked w) (inFlight w)
             (issued w ++ map id (entriesFrom st rnd k (nextUrl w) files))
             (pdfCalls w)).
Proof.
  induction files as [|f rest IH]; intros k w; simpl.
  - rewrite Nat.add_0_r, !app_nil_r. now destruct w.
  - rewrite IH. simpl. rewrite <- !app_assoc. simpl.
    now rewrite Nat.add_succ_r.
Qed.

Lemma swapContent_eq entryId f u prev :
  forall w,
    swapContent entryId f u prev w =
    (map (swapped entryId f u) prev,
     mkWorld (managedImages w) (isGenerating w) (error w) (successMessage w)
             (nextUrl w) (created w)
             (revoked w ++ map previewUrl (filter (hasId entryId) prev))
             (inFlight w) (issued w) (pdfCalls w)).
Proof.
  induction prev as [|img rest IH]; intros w; simpl.
  - rewrite app_nil_r. now destruct w.
  - unfold swapped at 1, hasId at 1.
    destruct (id img =? entryId)%string; rewrite IH; simpl;
      [rewrite <- app_assoc|]; reflexivity.
Qed.

Lemma revokeAll_eq images :
  forall w,
    revokeAll images w =
    mkWorld (managedImages w) (isGenerating w) (error w) (successMessage w)
            (nextUrl w) (created w) (revoked w ++ map previewUrl images)
            (inFlight w) (issued w) (pdfCalls w).
Proof.
  unfold revokeAll.
  induction images as [|img rest IH]; intros w; simpl.
  - rewrite app_nil_r. now destruct w.
  - rewrite IH. simpl. now rewrite <- app_assoc.
Qed.

Lemma upscale_then_eq entryId f w :
  upscale_then entryId f w =
  mkWorld (map (swapped entryId f (nextUrl w)) (managedImages w))
          (isGenerating w) (error w) (Some "Image upscaling complete!")
          (S (nextUrl w)) (created w ++ [nextUrl w])
          (revoked w ++ map previewUrl (filter (hasId entryId) (managedImages w)))
          (inFlight w) (issued w) (pdfCalls w).
Proof.
  unfold upscale_then, createObjectURL. rewrite swapContent_eq. reflexivity.
Qed.

Lemma handleFileChange_eq fs rnd w :
  let valid := filter (fun f => isImageType (type f)) fs in
  let entries := entriesFrom Ready rnd 0 (nextUrl w) valid in
  handleFileChange (Some fs) rnd w =
  mkWorld (managedImages w ++ entries) (isGenerating w)
          (if (List.length valid =? List.length fs)%nat
           then None else Some fileWarning)
          (if (0 <? List.length valid)%nat
           then Some (decimal (List.length valid) ++ " image(s) selected.")%string
           else None)
          (nextUrl w + List.length valid)
          (created w ++ seq (nextUrl w) (List.length valid))
          (revoked w) (inFlight w) (issued w ++ map id entries) (pdfCalls w).
Proof.
  intros valid entries. unfold handleFileChange. fold valid.
  rewrite newEntries_eq.
  destruct (List.length valid =? List.length fs)%nat;
    destruct (0 <? List.length valid)%nat; reflexivity.
Qed.

Lemma handlePaste_eq its clock rnd w :
  let pasted := pastedImages clock 0 its in
  let entries := entriesFrom Upscaling rnd 0 (nextUrl w) pasted in
  handlePaste (Some its) clock rnd w =
  if (0 <? List.length pasted)%nat then
    mkWorld (managedImages w ++ entries) (isGenerating w) None
            (Some (decimal (List.length pasted)
                     ++ " image(s) pasted. Upscaling...")%string)
            (nextUrl w + List.length pasted)
            (created w ++ seq (nextUrl w) (List.length pasted))
            (revoked w) (inFlight w ++ map id entries)
            (issued w ++ map id entries) (pdfCalls w)
  else w.
Proof.
  intros pasted entries. unfold handlePaste. fold pasted.
  destruct (0 <? List.length pasted)%nat; [|reflexivity].
  rewrite newEntries_eq. reflexivity.
Qed.

Lemma handleClearImages_eq w :
  handleClearImages w =
  mkWorld [] (isGenerating w) None None (nextUrl w) (created w)
          (revoked w ++ map previewUrl (managedImages w))
          (inFlight w) (issued w) (pdfCalls w).
Proof. unfold handleClearImages. rewrite revokeAll_eq. reflexivity. Qed.

(** ** Lookups by identifier *)

Lemma hasId_true i img : hasId i img = true <-> id img = i.
Proof. unfold hasId. apply String.eqb_eq. Qed.

Lemma find_absent i images :
  ~ In i (map id images) -> find (hasId i) images = None.
Proof.
  induction images as [|img rest IH]; simpl; [reflexivity|]. intros Hnot.
  destruct (hasId i img) eqn:E.
  - apply hasId_true in E. tauto.
  - apply IH. tauto.
Qed.

Lemma filter_absent i images :
  ~ In i (map id images) ->
  filter (fun img => negb (id img =? i)%string) images = images.
Proof.
  induction images as [|img rest IH]; simpl; [reflexivity|]. intros Hnot.
  destruct (id img =? i)%string eqn:E.
  - apply String.eqb_eq in E. tauto.
  - simpl. f_equal. apply IH. tauto.
Qed.

Lemma map_swapped_absent i f u images :
  ~ In i (map id images) -> map (swapped i f u) images = images.
Proof.
  induction images as [|img rest IH]; simpl; [reflexivity|]. intros Hnot.
  unfold swapped at 1. destruct (id img =? i)%string eqn:E.
  - apply String.eqb_eq in E. tauto.
  - f_equal. apply IH. tauto.
Qed.

Lemma map_markFailed_absent i images :
  ~ In i (map id images) -> map (markFailed i) images = images.
Proof.
  induction images as [|img rest IH]; simpl; [reflexivity|]. intros Hnot.
  unfold markFailed at 1. destruct (id img =? i)%string eqn:E.
  - apply String.eqb_eq in E. tauto.
  - f_equal. apply IH. tauto.
Qed.

Lemma swapped_id i f u img : id (swapped i f u img) = id img.
Proof. unfold swapped. now destruct (id img =? i)%string. Qed.

Lemma markFailed_id i img : id (markFailed i img) = id img.
Proof. unfold markFailed. now destruct (id img =? i)%string. Qed.

Lemma map_id_swapped i f u images :
  map id (map (swapped i f u) images) = map id images.
Proof.
  rewrite map_map. apply map_ext. intros img. apply swapped_id.
Qed.

Lemma map_id_markFailed i images :
  map id (map (markFailed i) images) = map id images.
Proof.
  rewrite map_map. apply map_ext. intros img. apply markFailed_id.
Qed.

(** * Removal by an absent identifier *)

Lemma setManagedImages_same w : setManagedImages (managedImages w) w = w.
Proof. now destruct w. Qed.

(** C10.  [handleRemoveImage] called with an id that no entry of the
    collection carries returns the state it was given: the collection is
    the same and nothing is added to the log of revoked handles. *)
Theorem handleRemoveImage_absent (idToRemove : string) (w : World) :
  ~ In idToRemove (ids w) ->
  handleRemoveImage idToRemove w = w
  /\ managedImages (handleRemoveImage idToRemove w) = managedImages w
  /\ revoked (handleRemoveImage idToRemove w) = revoked w.
Proof.
  intros Habsent.
  assert (E : handleRemoveImage idToRemove w = w).
  { unfold handleRemoveImage.
    change (fun img : ManagedImage => (id img =? idToRemove)%string)
      with (hasId idToRemove).
    rewrite (find_absent _ _ Habsent), (filter_absent _ _ Habsent).
    apply setManagedImages_same. }
  now rewrite E.
Qed.

Lemma handleRemoveImage_absent_witness :
  ~ In "b.png-0.7" (ids selectedWorld)
  /\ handleRemoveImage "b.png-0.7" selectedWorld = selectedWorld.
Proof.
  assert (H : ~ In "b.png-0.7" (ids selectedWorld)).
  { intros Hin. vm_compute in Hin. destruct Hin as [E|[]]. discriminate E. }
  split; [exact H|].
  exact (proj1 (handleRemoveImage_absent "b.png-0.7" selectedWorld H)).
Defined.

(** * Stale completions *)

(** C5, as stated, fails: a transform that fails after its entry was
    removed leaves the collection empty but raises the error banner. *)
Lemma stale_failure_raises_banner :
  exec App_mount
       [PasteClipboard (Some clipboard) noon half; RemoveImage pastedId]
  = Some staleWorld
  /\ ~ In pastedId (ids staleWorld)
  /\ enabled staleWorld (UpscaleRejected pastedId) = true
  /\ error staleWorld = None
  /\ error (step staleWorld (UpscaleRejected pastedId))
     = Some "Some images could not be upscaled."
  /\ error (step staleWorld (UpscaleRejected pastedId)) <> error staleWorld.
Proof.
  conjuncts; try evaluate.
  - intros Hin. vm_compute in Hin. exact Hin.
  - discriminate.
Qed.

(** C5, amended.  When no entry carries the id of a settling transform,
    both continuations leave the collection as it was.  The success
    continuation leaves the error banner as it was; the failure
    continuation sets it. *)
Theorem stale_completion_keeps_collection
        (entryId : string) (upscaledFile : File) (w : World) :
  ~ In entryId (ids w) ->
  managedImages (upscale_then entryId upscaledFile w) = managedImages w
  /\ error (upscale_then entryId upscaledFile w) = error w
  /\ managedImages (upscale_catch entryId w) = managedImages w
  /\ error (upscale_catch entryId w)
     = Some "Some images could not be upscaled.".
Proof.
  intros Habsent. rewrite upscale_then_eq. unfold upscale_catch. simpl.
  rewrite (map_swapped_absent _ _ _ _ Habsent).
  rewrite (map_markFailed_absent _ _ Habsent).
  repeat split; reflexivity.
Qed.

Lemma stale_completion_keeps_collection_witness :
  ~ In pastedId (ids staleWorld)
  /\ managedImages (upscale_then pastedId enhanced staleWorld) = []
  /\ managedImages (upscale_catch pastedId staleWorld) = [].
Proof.
  assert (H : ~ In pastedId (ids staleWorld)).
  { intros Hin. vm_compute in Hin. exact Hin. }
  split; [exact H|].
  destruct (stale_completion_keeps_collection pastedId enhanced staleWorld H)
    as (Hthen & _ & Hcatch & _).
  split; [exact Hthen | exact Hcatch].
Defined.

(** * Failure of a transform *)




(** * Assembly *)

Lemma imagesToProcess_readyContents w :
  imagesToProcess w = readyContents (managedImages w).
Proof.
  unfold imagesToProcess.
  induction (managedImages w) as [|img rest IH]; simpl; [reflexivity|].
  destruct (status img); simpl; now rewrite IH.
Qed.


(** C3.  Whenever [handleGeneratePdf] calls [generatePdfFromImages], the
    one argument of that one call is the content of every [Ready] entry,
    in collection order, as section 4.5 words it. *)
Theorem handleGeneratePdf_argument (w : World) :
  pdfCalls (handleGeneratePdf w) <> pdfCalls w ->
  pdfCalls (handleGeneratePdf w)
  = pdfCalls w ++ [readyContents (managedImages w)].
Proof.
  unfold handleGeneratePdf.
  destruct (List.length (imagesToProcess w) =? 0)%nat.
  - simpl. intros H. now contradiction H.
  - intros _. simpl. unfold imagesToProcess at 1. simpl.
    now rewrite <- imagesToProcess_readyContents.
Qed.

Lemma handleGeneratePdf_argument_witness :
  pdfCalls (handleGeneratePdf mixedWorld) <> pdfCalls mixedWorld
  /\ pdfCalls (handleGeneratePdf mixedWorld)
     = pdfCalls mixedWorld ++ [readyContents (managedImages mixedWorld)].
Proof.
  assert (H : pdfCalls (handleGeneratePdf mixedWorld) <> pdfCalls mixedWorld).
  { intros E. vm_compute in E. discriminate E. }
  split; [exact H | exact (handleGeneratePdf_argument mixedWorld H)].
Defined.




(** * Ingest *)

Lemma filter_length_all {A : Type} (p : A -> bool) (l : list A) :
  (List.length (filter p l) =? List.length l)%nat = forallb p l.
Proof.
  induction l as [|a l IH]; simpl; [reflexivity|].
  destruct (p a); simpl; [exact IH|].
  pose proof (filter_length_le p l) as Hle.
  apply Nat.eqb_neq. lia.
Qed.

Lemma pastedImages_payload clock items :
  forall i,
    map (fun f => (type f, data f)) (pastedImages clock i items)
    = acceptedBlobs items.
Proof.
  induction items as [|it rest IH]; intros i; simpl; [reflexivity|].
  destruct (isImageType (itemType it)); [|apply IH].
  destruct (getAsFile it); simpl; [f_equal|]; apply IH.
Qed.

Lemma entriesFrom_payload st rnd k u files :
  map payload (entriesFrom st rnd k u files)
  = map (fun f => (type f, data f)) files.
Proof.
  rewrite <- (entriesFrom_file st rnd files k u) at 2.
  now rewrite map_map.
Qed.

(** C8, as stated, fails on the paste path: a clipboard that carries a
    text item next to an image admits the image and shows no warning. *)
Lemma paste_rejection_is_silent :
  filter (fun it => negb (isImageType (itemType it))) clipboard
  = [mkItem "text/plain" None]
  /\ managedImages (handlePaste (Some clipboard) noon half App_mount)
     = [mkImage pastedId (mkFile "pasted-image-5-1.png" "image/png" "PPPP")
                0 Upscaling None]
  /\ error (handlePaste (Some clipboard) noon half App_mount) = None.
Proof. conjuncts; evaluate. Qed.

(** C8, amended.  A file selection appends one entry for each file whose
    declared kind is an image, in selection order, and sets the warning
    once, whatever the number of rejected files, exactly when at least one
    file is rejected.  A paste appends one entry for each image-typed item
    that carries a blob, in clipboard order; it never sets a warning: it
    clears the banner when it admits something and leaves it otherwise. *)
Theorem ingest_filters_batch
        (fs : list File) (its : list DataTransferItem)
        (clock : nat -> nat) (rnd : nat -> string) (w : World) :
  (exists entries,
      managedImages (handleFileChange (Some fs) rnd w)
      = managedImages w ++ entries
      /\ map file entries = filter (fun f => isImageType (type f)) fs)
  /\ error (handleFileChange (Some fs) rnd w)
     = (if forallb (fun f => isImageType (type f)) fs
        then None else Some fileWarning)
  /\ (exists entries,
         managedImages (handlePaste (Some its) clock rnd w)
         = managedImages w ++ entries
         /\ map payload entries = acceptedBlobs its)
  /\ error (handlePaste (Some its) clock rnd w)
     = (match acceptedBlobs its with [] => error w | _ :: _ => None end).
Proof.
  rewrite handleFileChange_eq, handlePaste_eq. simpl.
  rewrite filter_length_all.
  pose proof (pastedImages_payload clock its 0) as Hpay.
  split; [|split; [reflexivity|]].
  - eexists. split; [reflexivity|]. apply entriesFrom_file.
  - remember (pastedImages clock 0 its) as pasted eqn:Epasted.
    pose proof (entriesFrom_payload Upscaling rnd 0 (nextUrl w) pasted)
      as Hent.
    rewrite <- Hpay. destruct pasted as [|f rest].
    + simpl. split; [|reflexivity]. exists []. now rewrite app_nil_r.
    + split; [|reflexivity]. eexists. split; [reflexivity|]. exact Hent.
Qed.

(** * Teardown *)

Lemma App_unmount_noop w : App_unmount w = w.
Proof. unfold App_unmount, unmountCleanup. simpl. reflexivity. Qed.

(** C1 at two failing inputs.  After one file is selected, teardown
    revokes nothing: handle [0], still held by the collection, is never
    reclaimed.  After an image is pasted and removed, the transform that
    then succeeds creates handle [1], which no entry holds and nothing
    revokes. *)
Theorem teardown_and_stale_result_leak :
  (exec App_mount [SelectFiles (Some [photo]) half] = Some selectedWorld
   /\ map previewUrl (managedImages selectedWorld) = [0]
   /\ created (App_unmount selectedWorld) = [0]
   /\ revoked (App_unmount selectedWorld) = [])
  /\ (exec App_mount
           [PasteClipboard (Some clipboard) noon half;
            RemoveImage pastedId;
            UpscaleResolved pastedId enhanced]
      = Some (step staleWorld (UpscaleResolved pastedId enhanced))
      /\ managedImages (step staleWorld (UpscaleResolved pastedId enhanced)) = []
      /\ created (step staleWorld (UpscaleResolved pastedId enhanced)) = [0; 1]
      /\ revoked (step staleWorld (UpscaleResolved pastedId enhanced)) = [0]
      /\ revoked (App_unmount
                    (step staleWorld (UpscaleResolved pastedId enhanced)))
         = [0]).
Proof. conjuncts; evaluate. Qed.

(** * One step, field by field *)

Lemma handleRemoveImage_eq i w :
  handleRemoveImage i w =
  mkWorld (filter (fun img => negb (hasId i img)) (managedImages w))
          (isGenerating w) (error w) (successMessage w) (nextUrl w)
          (created w)
          (revoked w ++ match find (hasId i) (managedImages w) with
                        | Some img => [previewUrl img]
                        | None => []
                        end)
          (inFlight w) (issued w) (pdfCalls w).
Proof.
  unfold handleRemoveImage.
  change (fun img : ManagedImage => (id img =? i)%string) with (hasId i).
  destruct (find (hasId i) (managedImages w)); simpl; [reflexivity|].
  now rewrite app_nil_r.
Qed.

Lemma clickGeneratePdf_fields w :
  managedImages (clickGeneratePdf w) = managedImages w
  /\ nextUrl (clickGeneratePdf w) = nextUrl w
  /\ created (clickGeneratePdf w) = created w
  /\ revoked (clickGeneratePdf w) = revoked w
  /\ inFlight (clickGeneratePdf w) = inFlight w
  /\ issued (clickGeneratePdf w) = issued w.
Proof.
  unfold clickGeneratePdf, handleGeneratePdf.
  destruct (controlsRendered w && negb (generateDisabled w));
    [destruct (List.length (imagesToProcess w) =? 0)%nat|];
    repeat split; reflexivity.
Qed.

Lemma handleGeneratePdf_settled_fields failure w :
  managedImages (handleGeneratePdf_settled failure w) = managedImages w
  /\ nextUrl (handleGeneratePdf_settled failure w) = nextUrl w
  /\ created (handleGeneratePdf_settled failure w) = created w
  /\ revoked (handleGeneratePdf_settled failure w) = revoked w
  /\ inFlight (handleGeneratePdf_settled failure w) = inFlight w
  /\ issued (handleGeneratePdf_settled failure w) = issued w.
Proof. destruct failure; repeat split; reflexivity. Qed.

Lemma step_managedImages w e :
  managedImages (step w e) =
  match e with
  | SelectFiles _ _ | PasteClipboard _ _ _ => managedImages w ++ admitted w e
  | UpscaleResolved i f => map (swapped i f (nextUrl w)) (managedImages w)
  | UpscaleRejected i => map (markFailed i) (managedImages w)
  | ClearImages => []
  | RemoveImage i => filter (fun img => negb (hasId i img)) (managedImages w)
  | ClickGenerate | PdfSettled _ => managedImages w
  end.
Proof.
  destruct e as [[fs|] rnd|[its|] clock rnd|i f|i| |failure| |i];
    unfold step;
    rewrite ?handleFileChange_eq, ?handlePaste_eq, ?upscale_then_eq,
      ?handleClearImages_eq, ?handleRemoveImage_eq;
    unfold upscale_catch; cbn [admitted]; try reflexivity; simpl;
    try now rewrite app_nil_r.
  - destruct (0 <? List.length (pastedImages clock 0 its))%nat eqn:E;
      [reflexivity|].
    destruct (pastedImages clock 0 its); [|discriminate E].
    simpl. now rewrite app_nil_r.
  - apply clickGeneratePdf_fields.
  - apply handleGeneratePdf_settled_fields.
Qed.

Lemma step_issued w e :
  issued (step w e) = issued w ++ map id (admitted w e).
Proof.
  destruct e as [[fs|] rnd|[its|] clock rnd|i f|i| |failure| |i];
    unfold step;
    rewrite ?handleFileChange_eq, ?handlePaste_eq, ?upscale_then_eq,
      ?handleClearImages_eq, ?handleRemoveImage_eq;
    unfold upscale_catch; cbn [admitted]; try reflexivity; simpl;
    try now rewrite app_nil_r.
  - destruct (0 <? List.length (pastedImages clock 0 its))%nat eqn:E;
      [reflexivity|].
    destruct (pastedImages clock 0 its); [|discriminate E].
    simpl. now rewrite app_nil_r.
  - rewrite app_nil_r. apply clickGeneratePdf_fields.
  - rewrite app_nil_r. apply handleGeneratePdf_settled_fields.
Qed.

Lemma step_inFlight w e :
  inFlight (step w e) =
  match e with
  | PasteClipboard _ _ _ => inFlight w ++ map id (admitted w e)
  | UpscaleResolved i _ | UpscaleRejected i => removeFirst i (inFlight w)
  | _ => inFlight w
  end.
Proof.
  destruct e as [[fs|] rnd|[its|] clock rnd|i f|i| |failure| |i];
    unfold step;
    rewrite ?handleFileChange_eq, ?handlePaste_eq, ?upscale_then_eq,
      ?handleClearImages_eq, ?handleRemoveImage_eq;
    unfold upscale_catch; cbn [admitted]; try reflexivity; simpl;
    try now rewrite app_nil_r.
  - destruct (0 <? List.length (pastedImages clock 0 its))%nat eqn:E;
      [reflexivity|].
    destruct (pastedImages clock 0 its); [|discriminate E].
    simpl. now rewrite app_nil_r.
  - apply clickGeneratePdf_fields.
  - apply handleGeneratePdf_settled_fields.
Qed.

Lemma step_nextUrl w e :
  nextUrl (step w e) =
  match e with
  | UpscaleResolved _ _ => S (nextUrl w)
  | _ => nextUrl w + List.length (admitted w e)
  end.
Proof.
  destruct e as [[fs|] rnd|[its|] clock rnd|i f|i| |failure| |i];
    unfold step;
    rewrite ?handleFileChange_eq, ?handlePaste_eq, ?upscale_then_eq,
      ?handleClearImages_eq, ?handleRemoveImage_eq;
    unfold upscale_catch; cbn [admitted]; try reflexivity; simpl;
    rewrite ?entriesFrom_length, ?Nat.add_0_r; try reflexivity.
  - destruct (0 <? List.length (pastedImages clock 0 its))%nat eqn:E;
      [reflexivity|].
    destruct (pastedImages clock 0 its); [|discriminate E].
    simpl. now rewrite Nat.add_0_r.
  - apply clickGeneratePdf_fields.
  - apply handleGeneratePdf_settled_fields.
Qed.

Lemma step_created w e :
  created (step w e) =
  match e with
  | UpscaleResolved _ _ => created w ++ [nextUrl w]
  | _ => created w ++ map previewUrl (admitted w e)
  end.
Proof.
  destruct e as [[fs|] rnd|[its|] clock rnd|i f|i| |failure| |i];
    unfold step;
    rewrite ?handleFileChange_eq, ?handlePaste_eq, ?upscale_then_eq,
      ?handleClearImages_eq, ?handleRemoveImage_eq;
    unfold upscale_catch; cbn [admitted]; try reflexivity; simpl;
    rewrite ?entriesFrom_previewUrl, ?app_nil_r; try reflexivity.
  - destruct (0 <? List.length (pastedImages clock 0 its))%nat eqn:E;
      [reflexivity|].
    destruct (pastedImages clock 0 its); [|discriminate E].
    simpl. now rewrite app_nil_r.
  - apply clickGeneratePdf_fields.
  - apply handleGeneratePdf_settled_fields.
Qed.

Lemma step_revoked w e :
  revoked (step w e) =
  revoked w ++
  match e with
  | UpscaleResolved i _ =>
      map previewUrl (filter (hasId i) (managedImages w))
  | ClearImages => map previewUrl (managedImages w)
  | RemoveImage i =>
      match find (hasId i) (managedImages w) with
      | Some img => [previewUrl img]
      | None => []
      end
  | _ => []
  end.
Proof.
  destruct e as [[fs|] rnd|[its|] clock rnd|i f|i| |failure| |i];
    unfold step;
    rewrite ?handleFileChange_eq, ?handlePaste_eq, ?upscale_then_eq,
      ?handleClearImages_eq, ?handleRemoveImage_eq;
    unfold upscale_catch; cbn [admitted]; try reflexivity; simpl; rewrite ?app_nil_r;
    try reflexivity.
  - now destruct (0 <? List.length (pastedImages clock 0 its))%nat.
  - apply clickGeneratePdf_fields.
  - apply handleGeneratePdf_settled_fields.
Qed.

Lemma admitted_previewUrl w e :
  map previewUrl (admitted w e)
  = seq (nextUrl w) (List.length (admitted w e)).
Proof.
  destruct e as [[fs|] rnd|[its|] clock rnd|i f|i| |failure| |i];
    simpl; try reflexivity;
    now rewrite entriesFrom_previewUrl, entriesFrom_length.
Qed.

Lemma admitted_status w e img :
  In img (admitted w e) ->
  match e with
  | SelectFiles _ _ => status img = Ready
  | PasteClipboard _ _ _ => status img = Upscaling
  | _ => False
  end.
Proof.
  destruct e as [[fs|] rnd|[its|] clock rnd|i f|i| |failure| |i];
    simpl; try tauto; apply entriesFrom_status.
Qed.

(** * Runs *)

Lemma exec_cons w e es w' :
  exec w (e :: es) = Some w' ->
  enabled w e = true /\ exec (step w e) es = Some w'.
Proof. simpl. destruct (enabled w e); [now split | discriminate]. Qed.

Lemma exec_issued es :
  forall w w', exec w es = Some w' -> exists l, issued w' = issued w ++ l.
Proof.
  induction es as [|e es IH]; intros w w' Hrun.
  - injection Hrun as <-. exists []. now rewrite app_nil_r.
  - apply exec_cons in Hrun as [_ Hrun].
    destruct (IH _ _ Hrun) as [l Hl]. rewrite step_issued in Hl.
    eexists. rewrite Hl, <- app_assoc. reflexivity.
Qed.

(** An invariant of the steps a run is made of holds at its end.  The
    step may use that the final log of issued ids has no repetition: the
    log only grows, so none of its prefixes has one either. *)
Lemma exec_invariant (allowed : Event -> bool) (P : World -> Prop) :
  (forall w e,
      allowed e = true -> enabled w e = true ->
      NoDup (issued (step w e)) -> P w -> P (step w e)) ->
  forall es w w',
    forallb allowed es = true -> exec w es = Some w' ->
    NoDup (issued w') -> P w -> P w'.
Proof.
  intros Hstep. induction es as [|e es IH]; intros w w' Hall Hrun Hnd HP.
  - injection Hrun as <-. exact HP.
  - simpl in Hall. apply andb_prop in Hall as [He Hall].
    apply exec_cons in Hrun as [Hen Hrun].
    apply (IH (step w e) w' Hall Hrun Hnd).
    apply Hstep; try assumption.
    destruct (exec_issued es _ _ Hrun) as [l Hl]. rewrite Hl in Hnd.
    now apply NoDup_app_remove_r in Hnd.
Qed.

Lemma forallb_true_all (es : list Event) : forallb (fun _ => true) es = true.
Proof. induction es; simpl; auto. Qed.

(** * Uniqueness of identifiers *)

Lemma mem_In i l : mem i l = true <-> In i l.
Proof.
  unfold mem. rewrite existsb_exists. split.
  - intros (j & Hj & E). apply String.eqb_eq in E. now subst.
  - intros Hin. exists i. split; [exact Hin | apply String.eqb_refl].
Qed.

Lemma distinct_NoDup l : distinct l = true -> NoDup l.
Proof.
  induction l as [|i rest IH]; simpl; intros H; constructor.
  - apply andb_prop in H as [H _]. rewrite <- mem_In.
    now destruct (mem i rest).
  - apply andb_prop in H as [_ H]. auto.
Qed.

Lemma NoDup_app_disjoint {A : Type} (l1 l2 : list A) (x : A) :
  NoDup (l1 ++ l2) -> In x l1 -> ~ In x l2.
Proof.
  induction l1 as [|a l1 IH]; simpl; intros Hnd Hin1 Hin2; [exact Hin1|].
  inversion Hnd as [|? ? Hnot Hnd']; subst. destruct Hin1 as [->|Hin1].
  - apply Hnot, in_or_app. now right.
  - exact (IH Hnd' Hin1 Hin2).
Qed.

Lemma map_id_filter (p : string -> bool) images :
  map id (filter (fun img => p (id img)) images) = filter p (map id images).
Proof. symmetry. apply filter_map_swap. Qed.

(** The ids after a step: some of the ids before it, in their order,
    followed by the ids of the entries the step admits. *)
Lemma step_ids w e :
  exists keep,
    ids (step w e) = keep ++ map id (admitted w e)
    /\ incl keep (ids w)
    /\ (NoDup (ids w) -> NoDup keep).
Proof.
  unfold ids. rewrite step_managedImages.
  destruct e as [files rnd|items clock rnd|i f|i| |failure| |i].
  - exists (map id (managedImages w)).
    rewrite map_app. auto using incl_refl.
  - exists (map id (managedImages w)).
    rewrite map_app. auto using incl_refl.
  - exists (map id (managedImages w)).
    rewrite map_id_swapped. simpl. rewrite app_nil_r. auto using incl_refl.
  - exists (map id (managedImages w)).
    rewrite map_id_markFailed. simpl. rewrite app_nil_r.
    auto using incl_refl.
  - exists (map id (managedImages w)).
    simpl. rewrite app_nil_r. auto using incl_refl.
  - exists (map id (managedImages w)).
    simpl. rewrite app_nil_r. auto using incl_refl.
  - exists []. simpl. repeat split.
    + intros x [].
    + intros _. constructor.
  - exists (filter (fun j => negb (j =? i)%string) (map id (managedImages w))).
    simpl. rewrite app_nil_r. repeat split.
    + apply (map_id_filter (fun j => negb (j =? i)%string)).
    + apply incl_filter.
    + apply NoDup_filter.
Qed.

Lemma idsUnique_step w e :
  NoDup (issued (step w e)) -> idsUnique w -> idsUnique (step w e).
Proof.
  rewrite step_issued. intros Hnd [Hincl Hids].
  destruct (step_ids w e) as (keep & E & Hkeep & Hnd').
  unfold idsUnique. rewrite E, step_issued. split.
  - apply incl_app.
    + apply incl_appl. eapply incl_tran; eassumption.
    + apply incl_appr, incl_refl.
  - apply NoDup_app.
    + auto.
    + eapply NoDup_app_remove_l; eassumption.
    + intros i Hi. eapply NoDup_app_disjoint; [eassumption|]. auto.
Qed.

Lemma idsUnique_mount : idsUnique App_mount.
Proof. split; [intros x [] | constructor]. Qed.

Lemma idsUnique_exec es w :
  exec App_mount es = Some w -> NoDup (issued w) -> idsUnique w.
Proof.
  intros Hrun Hnd.
  apply (exec_invariant (fun _ => true) idsUnique) with (es := es)
                                                         (w := App_mount);
    auto using forallb_true_all, idsUnique_mount.
  intros w0 e _ _. apply idsUnique_step.
Qed.

(** C9, as stated, fails: ids are a file name and a random draw, and when
    the same file is selected twice and the draw comes out the same, two
    entries of the collection carry the same id. *)
Lemma repeated_draw_repeats_id :
  exec App_mount
       [SelectFiles (Some [photo]) half; SelectFiles (Some [photo]) half]
  = Some twiceWorld
  /\ ids twiceWorld = ["a.png-0.5"; "a.png-0.5"]
  /\ map previewUrl (managedImages twiceWorld) = [0; 1]
  /\ ~ NoDup (ids twiceWorld).
Proof.
  conjuncts; try evaluate.
  intros Hnd. vm_compute in Hnd. inversion Hnd as [|? ? Hnot _]; subst.
  apply Hnot. now left.
Qed.

(** C9, amended.  In every state a run of events reaches from the first
    render, whatever the events and their order, no two entries of the
    collection share an id, provided no id was generated twice during the
    run. *)
Theorem ids_unique_when_never_repeated (es : list Event) (w : World) :
  exec App_mount es = Some w ->
  NoDup (issued w) ->
  NoDup (ids w).
Proof. intros Hrun Hnd. now apply (idsUnique_exec es). Qed.

Lemma ids_unique_when_never_repeated_witness :
  exec App_mount
       [SelectFiles (Some [photo]) half;
        PasteClipboard (Some clipboard) noon half]
  = Some mixedWorld
  /\ NoDup (issued mixedWorld)
  /\ NoDup (ids mixedWorld).
Proof.
  assert (Hnd : NoDup (issued mixedWorld)).
  { apply distinct_NoDup. evaluate. }
  assert (Hrun : exec App_mount
                       [SelectFiles (Some [photo]) half;
                        PasteClipboard (Some clipboard) noon half]
                  = Some mixedWorld) by evaluate.
  split; [exact Hrun|]. split; [exact Hnd|].
  exact (ids_unique_when_never_repeated
           [SelectFiles (Some [photo]) half;
            PasteClipboard (Some clipboard) noon half]
           mixedWorld Hrun Hnd).
Defined.

(** * The handle registry under admission, removal and clearing *)

Lemma find_none_filter i images :
  find (hasId i) images = None ->
  filter (fun img => negb (hasId i img)) images = images.
Proof.
  induction images as [|img rest IH]; simpl; [reflexivity|].
  destruct (hasId i img); [discriminate|]. simpl. intros H. now rewrite IH.
Qed.

(** With unique ids, removal by id takes out the one entry [find] returns. *)
Lemma find_some_filter i images x :
  NoDup (map id images) ->
  find (hasId i) images = Some x ->
  exists before after,
    images = before ++ x :: after
    /\ filter (fun img => negb (hasId i img)) images = before ++ after.
Proof.
  induction images as [|img rest IH]; simpl; [discriminate|].
  intros Hnd Hfind. inversion Hnd as [|? ? Hnot Hnd']; subst.
  destruct (hasId i img) eqn:E; simpl.
  - injection Hfind as <-. exists [], rest. split; [reflexivity|].
    apply hasId_true in E. subst i. simpl. now apply filter_absent.
  - destruct (IH Hnd' Hfind) as (before & after & -> & Hfilter).
    exists (img :: before), after. simpl. now rewrite Hfilter.
Qed.

Lemma ledgerBalanced_mount : ledgerBalanced App_mount.
Proof. split; [reflexivity | apply perm_nil]. Qed.

Lemma ledgerBalanced_step w e :
  isCollectionOp e = true ->
  idsUnique w -> ledgerBalanced w -> ledgerBalanced (step w e).
Proof.
  intros Hop [_ Hids] [Hcreated Hperm]. split.
  - rewrite step_created, step_nextUrl.
    destruct e; try discriminate Hop;
      now rewrite admitted_previewUrl, Hcreated, seq_app.
  - rewrite step_created, step_revoked, step_managedImages.
    destruct e as [files rnd|items clock rnd|i f|i| |failure| |i];
      try discriminate Hop.
    + rewrite app_nil_r, map_app, app_assoc. now apply Permutation_app_tail.
    + rewrite app_nil_r, map_app, app_assoc. now apply Permutation_app_tail.
    + simpl. now rewrite !app_nil_r.
    + simpl. rewrite app_nil_r.
      destruct (find (hasId i) (managedImages w)) as [x|] eqn:Hfind.
      * destruct (find_some_filter i _ x Hids Hfind)
          as (before & after & Himages & ->).
        rewrite Himages in Hperm. rewrite map_app in *. simpl in Hperm.
        eapply Permutation_trans; [exact Hperm|].
        rewrite <- (app_assoc (revoked w) [previewUrl x]).
        apply Permutation_app_head. simpl. symmetry.
        apply Permutation_middle.
      * rewrite (find_none_filter _ _ Hfind). now rewrite app_nil_r.
Qed.

Lemma negb_existsb_eqb u l :
  negb (existsb (Nat.eqb u) l) = true <-> ~ In u l.
Proof.
  rewrite negb_true_iff, <- not_true_iff_false, existsb_exists. split.
  - intros Hnot Hin. apply Hnot. exists u. split; [exact Hin|].
    apply Nat.eqb_refl.
  - intros Hnot (v & Hv & E). apply Nat.eqb_eq in E. now subst.
Qed.

(** What the balance says of the live handles. *)
Lemma ledgerBalanced_live w :
  ledgerBalanced w ->
  Permutation (liveHandles w) (map previewUrl (managedImages w))
  /\ NoDup (revoked w)
  /\ incl (revoked w) (created w).
Proof.
  intros [Hcreated Hperm].
  assert (Hnd : NoDup (revoked w ++ map previewUrl (managedImages w))).
  { eapply Permutation_NoDup; [exact Hperm|].
    rewrite Hcreated. apply seq_NoDup. }
  split; [|split].
  - apply NoDup_Permutation.
    + apply NoDup_filter. rewrite Hcreated. apply seq_NoDup.
    + eapply NoDup_app_remove_l; eassumption.
    + intros u. unfold liveHandles.
      rewrite filter_In, negb_existsb_eqb. split.
      * intros [Hin Hnot].
        apply (Permutation_in _ Hperm), in_app_or in Hin. tauto.
      * intros Hin. split.
        -- apply (Permutation_in _ (Permutation_sym Hperm)), in_or_app.
           now right.
        -- intros Hrev. exact (NoDup_app_disjoint _ _ u Hnd Hrev Hin).
  - eapply NoDup_app_remove_r; eassumption.
  - intros u Hu.
    apply (Permutation_in _ (Permutation_sym Hperm)), in_or_app. now left.
Qed.

(** C6, as stated, fails: when two entries carry the same id, removal by
    that id takes both out of the collection and revokes the handle of the
    first only. *)
Lemma removal_of_repeated_id_leaks :
  exec App_mount
       [SelectFiles (Some [photo]) half; SelectFiles (Some [photo]) half;
        RemoveImage "a.png-0.5"]
  = Some twiceRemovedWorld
  /\ managedImages twiceRemovedWorld = []
  /\ created twiceRemovedWorld = [0; 1]
  /\ revoked twiceRemovedWorld = [0]
  /\ liveHandles twiceRemovedWorld = [1]
  /\ List.length (liveHandles twiceRemovedWorld)
     <> List.length (managedImages twiceRemovedWorld).
Proof.
  conjuncts; try evaluate.
  intros E. vm_compute in E. discriminate E.
Qed.

(** C6, amended.  After any sequence of file selections, pastes, removals
    and clears in which no id was generated twice, the live handles are
    the handles the entries of the collection hold, one each, so there are
    as many of them as entries; no handle was revoked twice, and none that
    was not created. *)
Theorem live_handles_match_collection (es : list Event) (w : World) :
  forallb isCollectionOp es = true ->
  exec App_mount es = Some w ->
  NoDup (issued w) ->
  List.length (liveHandles w) = List.length (managedImages w)
  /\ Permutation (liveHandles w) (map previewUrl (managedImages w))
  /\ NoDup (revoked w)
  /\ incl (revoked w) (created w).
Proof.
  intros Hops Hrun Hnd.
  assert (Hinv : idsUnique w /\ ledgerBalanced w).
  { apply (exec_invariant isCollectionOp
             (fun w => idsUnique w /\ ledgerBalanced w))
      with (es := es) (w := App_mount);
      auto using idsUnique_mount, ledgerBalanced_mount.
    intros w0 e Hop _ Hnd0 [Hu Hl].
    split; [now apply idsUnique_step | now apply ledgerBalanced_step]. }
  destruct (ledgerBalanced_live w (proj2 Hinv)) as (Hperm & Hrev & Hincl).
  split; [|now repeat split].
  rewrite (Permutation_length Hperm). apply length_map.
Qed.

Lemma live_handles_match_collection_witness :
  forallb isCollectionOp tidyRun = true
  /\ exec App_mount tidyRun = Some tidyWorld
  /\ NoDup (issued tidyWorld)
  /\ List.length (liveHandles tidyWorld)
     = List.length (managedImages tidyWorld)
  /\ liveHandles tidyWorld = [1]
  /\ map previewUrl (managedImages tidyWorld) = [1].
Proof.
  assert (Hops : forallb isCollectionOp tidyRun = true) by evaluate.
  assert (Hrun : exec App_mount tidyRun = Some tidyWorld) by evaluate.
  assert (Hnd : NoDup (issued tidyWorld)).
  { apply distinct_NoDup. evaluate. }
  split; [exact Hops|]. split; [exact Hrun|]. split; [exact Hnd|].
  split; [|split; evaluate].
  exact (proj1 (live_handles_match_collection tidyRun tidyWorld
                                              Hops Hrun Hnd)).
Defined.

(** * The status of an entry along a run *)

Lemma removeFirst_In i j l : In j (removeFirst i l) -> In j l.
Proof.
  induction l as [|k rest IH]; simpl; [tauto|].
  destruct (k =? i)%string; simpl; tauto.
Qed.

Lemma removeFirst_NoDup i l : NoDup l -> NoDup (removeFirst i l).
Proof.
  induction l as [|k rest IH]; simpl; intros Hnd; [constructor|].
  inversion Hnd as [|? ? Hnot Hnd']; subst.
  destruct (k =? i)%string; [exact Hnd'|]. constructor; [|auto].
  intros Hin. apply Hnot. eapply removeFirst_In; eassumption.
Qed.

Lemma removeFirst_absent i l : NoDup l -> ~ In i (removeFirst i l).
Proof.
  induction l as [|k rest IH]; simpl; intros Hnd; [tauto|].
  inversion Hnd as [|? ? Hnot Hnd']; subst.
  destruct (k =? i)%string eqn:E.
  - apply String.eqb_eq in E. now subst.
  - apply String.eqb_neq in E. simpl. intros [Hk|Hin]; [contradiction|].
    now apply IH.
Qed.

Lemma same_id_same_entry images x y :
  NoDup (map id images) ->
  In x images -> In y images -> id x = id y -> x = y.
Proof.
  induction images as [|img rest IH]; simpl; [tauto|].
  intros Hnd Hx Hy E. inversion Hnd as [|? ? Hnot Hnd']; subst.
  destruct Hx as [->|Hx], Hy as [->|Hy]; auto.
  - contradiction Hnot. rewrite E. now apply in_map.
  - contradiction Hnot. rewrite <- E. now apply in_map.
Qed.

Lemma settles_refl s : settles s s.
Proof. now left. Qed.

Lemma settles_trans a b c : settles a b -> settles b c -> settles a c.
Proof.
  unfold settles. intros [->|[-> Hb]] [->|[E Hc]]; auto.
Qed.

Lemma transformsTracked_mount : transformsTracked App_mount.
Proof.
  split; [intros x [] | split; [constructor | intros img []]].
Qed.

Lemma transformsTracked_step w e :
  NoDup (issued (step w e)) ->
  idsUnique w -> transformsTracked w -> transformsTracked (step w e).
Proof.
  rewrite step_issued. intros Hnd [Hincl Hids] (Hflight & Hdistinct & Hleft).
  assert (Hfresh : forall i, In i (inFlight w) ->
                             ~ In i (map id (admitted w e))).
  { intros i Hi. eapply NoDup_app_disjoint; [exact Hnd | auto]. }
  split; [|split].
  - rewrite step_inFlight, step_issued.
    destruct e; auto using incl_appl, incl_app, incl_appr, incl_refl;
      intros j Hj; apply in_or_app; left;
      apply Hflight; eapply removeFirst_In; eassumption.
  - rewrite step_inFlight.
    destruct e; auto using removeFirst_NoDup.
    apply NoDup_app; auto.
    eapply NoDup_app_remove_l; eassumption.
  - intros img. rewrite step_managedImages, step_inFlight.
    destruct e as [files rnd|items clock rnd|i f|i| |failure| |i].
    + intros Hin Hst. apply in_app_or in Hin as [Hin|Hin]; [auto|].
      intros Hfl. apply (Hfresh _ Hfl). now apply in_map.
    + intros Hin Hst. apply in_app_or in Hin as [Hin|Hin].
      * intros Hfl. apply in_app_or in Hfl as [Hfl|Hfl].
        -- exact (Hleft img Hin Hst Hfl).
        -- eapply NoDup_app_disjoint; [exact Hnd| |exact Hfl].
           apply Hincl. unfold ids. now apply in_map.
      * apply (admitted_status w (PasteClipboard items clock rnd)) in Hin.
        contradiction.
    + intros Hin Hst Hfl. apply in_map_iff in Hin as (x & <- & Hx).
      rewrite swapped_id in Hfl. unfold swapped in Hst.
      destruct (id x =? i)%string eqn:E.
      * apply String.eqb_eq in E. rewrite E in Hfl.
        exact (removeFirst_absent i _ Hdistinct Hfl).
      * apply removeFirst_In in Hfl. exact (Hleft x Hx Hst Hfl).
    + intros Hin Hst Hfl. apply in_map_iff in Hin as (x & <- & Hx).
      rewrite markFailed_id in Hfl. unfold markFailed in Hst.
      destruct (id x =? i)%string eqn:E.
      * apply String.eqb_eq in E. rewrite E in Hfl.
        exact (removeFirst_absent i _ Hdistinct Hfl).
      * apply removeFirst_In in Hfl. exact (Hleft x Hx Hst Hfl).
    + auto.
    + auto.
    + intros [].
    + intros Hin. apply filter_In in Hin as [Hin _]. auto.
Qed.

(** One step takes each entry's status where [settles] allows. *)
Lemma step_settles w e x y :
  enabled w e = true ->
  NoDup (issued (step w e)) ->
  idsUnique w -> transformsTracked w ->
  In x (managedImages w) -> In y (managedImages (step w e)) ->
  id x = id y ->
  settles (status x) (status y).
Proof.
  rewrite step_issued, step_managedImages.
  intros Hen Hnd [Hincl Hids] (_ & _ & Hleft) Hx Hy E.
  assert (Hsame : In y (managedImages w) -> settles (status x) (status y)).
  { intros Hy'. rewrite (same_id_same_entry _ x y Hids Hx Hy' E).
    apply settles_refl. }
  assert (Hnew : ~ In y (admitted w e)).
  { intros Hy'. eapply NoDup_app_disjoint; [exact Hnd| |].
    - apply Hincl. unfold ids. apply in_map. exact Hx.
    - rewrite E. now apply in_map. }
  destruct e as [files rnd|items clock rnd|i f|i| |failure| |i]; auto.
  - apply in_app_or in Hy as [Hy|Hy]; [auto | contradiction].
  - apply in_app_or in Hy as [Hy|Hy]; [auto | contradiction].
  - apply in_map_iff in Hy as (x' & <- & Hx').
    rewrite swapped_id in E.
    rewrite <- (same_id_same_entry _ x x' Hids Hx Hx' E).
    unfold swapped. destruct (id x =? i)%string eqn:Ei;
      [|apply settles_refl].
    apply String.eqb_eq in Ei. simpl in Hen. apply mem_In in Hen.
    destruct (status x) eqn:Est; simpl.
    + right. auto.
    + apply settles_refl.
    + exfalso. apply (Hleft x Hx); [rewrite Est; discriminate|].
      now rewrite Ei.
  - apply in_map_iff in Hy as (x' & <- & Hx').
    rewrite markFailed_id in E.
    rewrite <- (same_id_same_entry _ x x' Hids Hx Hx' E).
    unfold markFailed. destruct (id x =? i)%string eqn:Ei;
      [|apply settles_refl].
    apply String.eqb_eq in Ei. simpl in Hen. apply mem_In in Hen.
    destruct (status x) eqn:Est; simpl.
    + right. auto.
    + exfalso. apply (Hleft x Hx); [rewrite Est; discriminate|].
      now rewrite Ei.
    + apply settles_refl.
  - destruct Hy.
  - apply filter_In in Hy as [Hy _]. auto.
Qed.

(** An id that was issued and is no longer in the collection does not
    come back. *)
Lemma step_absent_stays w e i :
  NoDup (issued (step w e)) ->
  In i (issued w) -> ~ In i (ids w) -> ~ In i (ids (step w e)).
Proof.
  rewrite step_issued. intros Hnd Hissued Habsent.
  destruct (step_ids w e) as (keep & -> & Hkeep & _).
  intros Hin. apply in_app_or in Hin as [Hin|Hin]; [auto|].
  exact (NoDup_app_disjoint _ _ i Hnd Hissued Hin).
Qed.

Lemma exec_absent_stays es :
  forall w w' i,
    exec w es = Some w' -> NoDup (issued w') ->
    In i (issued w) -> ~ In i (ids w) -> ~ In i (ids w').
Proof.
  induction es as [|e es IH]; intros w w' i Hrun Hnd Hissued Habsent.
  - injection Hrun as <-. exact Habsent.
  - apply exec_cons in Hrun as [_ Hrun].
    assert (Hnd1 : NoDup (issued (step w e))).
    { destruct (exec_issued es _ _ Hrun) as [l Hl]. rewrite Hl in Hnd.
      now apply NoDup_app_remove_r in Hnd. }
    apply (IH _ _ i Hrun Hnd).
    + rewrite step_issued. apply in_or_app. now left.
    + now apply step_absent_stays.
Qed.

Lemma exec_settles es :
  forall w w' x y,
    exec w es = Some w' -> NoDup (issued w') ->
    idsUnique w -> transformsTracked w ->
    In x (managedImages w) -> In y (managedImages w') ->
    id x = id y ->
    settles (status x) (status y).
Proof.
  induction es as [|e es IH]; intros w w' x y Hrun Hnd Hu Ht Hx Hy E.
  - injection Hrun as <-.
    rewrite (same_id_same_entry _ x y (proj2 Hu) Hx Hy E).
    apply settles_refl.
  - apply exec_cons in Hrun as [Hen Hrun].
    assert (Hnd1 : NoDup (issued (step w e))).
    { destruct (exec_issued es _ _ Hrun) as [l Hl]. rewrite Hl in Hnd.
      now apply NoDup_app_remove_r in Hnd. }
    destruct (in_dec string_dec (id x) (ids (step w e))) as [Hin|Hout].
    + apply in_map_iff in Hin as (x1 & E1 & Hx1).
      apply settles_trans with (b := status x1).
      * apply (step_settles w e); auto.
      * apply (IH (step w e) w'); auto using idsUnique_step,
                                  transformsTracked_step.
        congruence.
    + exfalso.
      apply (exec_absent_stays es _ _ (id x) Hrun Hnd).
      * rewrite step_issued. apply in_or_app. left.
        apply (proj1 Hu). unfold ids. now apply in_map.
      * exact Hout.
      * rewrite E. unfold ids. now apply in_map.
Qed.

Lemma tracked_exec es w :
  exec App_mount es = Some w -> NoDup (issued w) ->
  idsUnique w /\ transformsTracked w.
Proof.
  intros Hrun Hnd.
  apply (exec_invariant (fun _ => true)
           (fun w => idsUnique w /\ transformsTracked w))
    with (es := es) (w := App_mount);
    auto using forallb_true_all, idsUnique_mount, transformsTracked_mount.
  intros w0 e _ _ Hnd0 [Hu Ht].
  split; [now apply idsUnique_step | now apply transformsTracked_step].
Qed.

(** C4, as stated, fails when an id is generated twice.  A selected file
    that bears the name of a pasted image and draws the same number shares
    the pasted entry's id: the failure of the paste's transform takes the
    file's entry from [Ready] to [Error].  Two pastes in the same
    millisecond with the same draw share an id too: the success of one
    transform and the failure of the other take both entries through
    [Ready] and then to [Error]. *)
Lemma repeated_id_breaks_status_machine :
  (exec App_mount
        [SelectFiles (Some [lookalike]) half;
         PasteClipboard (Some clipboard) noon half;
         UpscaleRejected pastedId]
   = Some (step collidedWorld (UpscaleRejected pastedId))
   /\ map file (managedImages (step App_mount
                                    (SelectFiles (Some [lookalike]) half)))
      = [lookalike]
   /\ map status (managedImages collidedWorld) = [Ready; Upscaling]
   /\ map status (managedImages (step collidedWorld
                                      (UpscaleRejected pastedId)))
      = [Error; Error])
  /\ (exec App_mount
           [PasteClipboard (Some clipboard) noon half;
            PasteClipboard (Some clipboard) noon half;
            UpscaleResolved pastedId enhanced;
            UpscaleRejected pastedId]
      = Some (step (step pastedTwiceWorld (UpscaleResolved pastedId enhanced))
                   (UpscaleRejected pastedId))
      /\ map status (managedImages pastedTwiceWorld) = [Upscaling; Upscaling]
      /\ map status (managedImages
                       (step pastedTwiceWorld
                             (UpscaleResolved pastedId enhanced)))
         = [Ready; Ready]
      /\ map status (managedImages
                       (step (step pastedTwiceWorld
                                   (UpscaleResolved pastedId enhanced))
                             (UpscaleRejected pastedId)))
         = [Error; Error]).
Proof. conjuncts; evaluate. Qed.

(** C4, amended.  Take a run from the first render to [w1] and on to
    [w2] in which no id was generated twice.  Every entry a file selection
    adds is [Ready] and every entry a paste adds is [Upscaling].  An entry
    of [w1] that is still in the collection in [w2] has the status it had,
    or has gone from [Upscaling] to [Ready] or to [Error]: a [Ready] entry
    stays [Ready], an [Error] entry stays [Error], and an entry leaves
    [Upscaling] at most once. *)
Theorem status_state_machine (es1 es2 : list Event) (w1 w2 : World) :
  exec App_mount es1 = Some w1 ->
  exec w1 es2 = Some w2 ->
  NoDup (issued w2) ->
  (forall files rnd img,
      In img (managedImages (handleFileChange files rnd w1)) ->
      In img (managedImages w1) \/ status img = Ready)
  /\ (forall items clock rnd img,
         In img (managedImages (handlePaste items clock rnd w1)) ->
         In img (managedImages w1) \/ status img = Upscaling)
  /\ (forall x y,
         In x (managedImages w1) -> In y (managedImages w2) ->
         id x = id y ->
         settles (status x) (status y)
         /\ (status x = Ready -> status y = Ready)
         /\ (status x = Error -> status y = Error)).
Proof.
  intros Hrun1 Hrun2 Hnd. split; [|split].
  - intros files rnd img Hin.
    change (handleFileChange files rnd w1)
      with (step w1 (SelectFiles files rnd)) in Hin.
    rewrite step_managedImages in Hin.
    apply in_app_or in Hin as [Hin|Hin]; [now left | right].
    exact (admitted_status w1 (SelectFiles files rnd) img Hin).
  - intros items clock rnd img Hin.
    change (handlePaste items clock rnd w1)
      with (step w1 (PasteClipboard items clock rnd)) in Hin.
    rewrite step_managedImages in Hin.
    apply in_app_or in Hin as [Hin|Hin]; [now left | right].
    exact (admitted_status w1 (PasteClipboard items clock rnd) img Hin).
  - intros x y Hx Hy E.
    assert (Hnd1 : NoDup (issued w1)).
    { destruct (exec_issued es2 _ _ Hrun2) as [l Hl]. rewrite Hl in Hnd.
      now apply NoDup_app_remove_r in Hnd. }
    destruct (tracked_exec es1 w1 Hrun1 Hnd1) as [Hu Ht].
    assert (Hs : settles (status x) (status y))
      by (apply (exec_settles es2 w1 w2); auto).
    split; [exact Hs|].
    destruct Hs as [->|[-> _]]; split; auto; discriminate.
Qed.

Lemma status_state_machine_witness :
  exec App_mount
       [SelectFiles (Some [photo]) half;
        PasteClipboard (Some clipboard) noon half]
  = Some mixedWorld
  /\ exec mixedWorld
          [UpscaleResolved pastedId enhanced; RemoveImage "a.png-0.5"]
     = Some settledWorld
  /\ NoDup (issued settledWorld)
  /\ In pastedEntry (managedImages mixedWorld)
  /\ In settledEntry (managedImages settledWorld)
  /\ settles (status pastedEntry) (status settledEntry).
Proof.
  assert (Hrun1 : exec App_mount
                        [SelectFiles (Some [photo]) half;
                         PasteClipboard (Some clipboard) noon half]
                   = Some mixedWorld) by evaluate.
  assert (Hrun2 : exec mixedWorld
                        [UpscaleResolved pastedId enhanced;
                         RemoveImage "a.png-0.5"]
                   = Some settledWorld) by evaluate.
  assert (Hnd : NoDup (issued settledWorld)).
  { apply distinct_NoDup. evaluate. }
  assert (Hx : In pastedEntry (managedImages mixedWorld)).
  { vm_compute. right. left. reflexivity. }
  assert (Hy : In settledEntry (managedImages settledWorld)).
  { vm_compute. left. reflexivity. }
  split; [exact Hrun1|]. split; [exact Hrun2|]. split; [exact Hnd|].
  split; [exact Hx|]. split; [exact Hy|].
  exact (proj1 (proj2 (proj2 (status_state_machine _ _ mixedWorld settledWorld
                                                   Hrun1 Hrun2 Hnd))
                      pastedEntry settledEntry Hx Hy eq_refl)).
Defined.

(** * Further properties of the handlers *)

(** An invariant of every enabled step holds at the end of every run. *)
Lemma exec_preserves (P : World -> Prop) :
  (forall w e, enabled w e = true -> P w -> P (step w e)) ->
  forall es w w', exec w es = Some w' -> P w -> P w'.
Proof.
  intros Hstep. induction es as [|e es IH]; intros w w' Hrun HP.
  - injection Hrun as <-. exact HP.
  - apply exec_cons in Hrun as [Hen Hrun]. eauto.
Qed.

Lemma removeFirst_other i j l :
  j <> i -> In j l -> In j (removeFirst i l).
Proof.
  intros Hne. induction l as [|k rest IH]; simpl; [tauto|].
  destruct (k =? i)%string eqn:E.
  - apply String.eqb_eq in E. subst k. intros [Hk|Hin]; [congruence|auto].
  - simpl. tauto.
Qed.

(** ** Entries in [Upscaling] state *)

Lemma upscaling_in_flight_step w e :
  (forall img, In img (managedImages w) ->
               status img = Upscaling -> In (id img) (inFlight w)) ->
  forall img, In img (managedImages (step w e)) ->
              status img = Upscaling -> In (id img) (inFlight (step w e)).
Proof.
  intros Hinv img. rewrite step_managedImages, step_inFlight.
  destruct e as [files rnd|items clock rnd|i f|i| |failure| |i].
  - intros Hin Hst. apply in_app_or in Hin as [Hin|Hin]; [auto|].
    apply (admitted_status w (SelectFiles files rnd)) in Hin. congruence.
  - intros Hin Hst. apply in_or_app.
    apply in_app_or in Hin as [Hin|Hin]; [left; auto|right].
    now apply in_map.
  - intros Hin Hst. apply in_map_iff in Hin as (x & <- & Hx).
    rewrite swapped_id. unfold swapped in Hst.
    destruct (id x =? i)%string eqn:E; [discriminate Hst|].
    apply String.eqb_neq in E. apply removeFirst_other; auto.
  - intros Hin Hst. apply in_map_iff in Hin as (x & <- & Hx).
    rewrite markFailed_id. unfold markFailed in Hst.
    destruct (id x =? i)%string eqn:E; [discriminate Hst|].
    apply String.eqb_neq in E. apply removeFirst_other; auto.
  - auto.
  - auto.
  - intros [].
  - intros Hin. apply filter_In in Hin as [Hin _]. auto.
Qed.

(** X1.  In every state a run reaches from the first render, each entry
    in [Upscaling] state has its transform in flight: no entry waits for a
    transform that was never submitted or has already settled. *)
Theorem upscaling_entry_in_flight
        (es : list Event) (w : World) (img : ManagedImage) :
  exec App_mount es = Some w ->
  In img (managedImages w) ->
  status img = Upscaling ->
  In (id img) (inFlight w).
Proof.
  intros Hrun. revert img.
  apply (exec_preserves
           (fun w => forall img, In img (managedImages w) ->
                                 status img = Upscaling ->
                                 In (id img) (inFlight w)))
    with (es := es) (w := App_mount);
    [intros w0 e _; apply upscaling_in_flight_step
    | exact Hrun
    | intros img []].
Qed.

Lemma upscaling_entry_in_flight_witness :
  exec App_mount
       [SelectFiles (Some [photo]) half;
        PasteClipboard (Some clipboard) noon half]
  = Some mixedWorld
  /\ In pastedEntry (managedImages mixedWorld)
  /\ status pastedEntry = Upscaling
  /\ In (id pastedEntry) (inFlight mixedWorld).
Proof.
  assert (Hrun : exec App_mount
                      [SelectFiles (Some [photo]) half;
                       PasteClipboard (Some clipboard) noon half]
                 = Some mixedWorld) by evaluate.
  assert (Hin : In pastedEntry (managedImages mixedWorld)).
  { vm_compute. right. left. reflexivity. }
  split; [exact Hrun|]. split; [exact Hin|]. split; [reflexivity|].
  exact (upscaling_entry_in_flight _ mixedWorld pastedEntry Hrun Hin eq_refl).
Defined.

(** ** Entries in [Error] state *)

Lemma error_message_step w e :
  (forall img, In img (managedImages w) -> status img = Error ->
               errorMessage img = Some "Upscaling failed.") ->
  forall img, In img (managedImages (step w e)) -> status img = Error ->
              errorMessage img = Some "Upscaling failed.".
Proof.
  intros Hinv img. rewrite step_managedImages.
  destruct e as [files rnd|items clock rnd|i f|i| |failure| |i].
  - intros Hin Hst. apply in_app_or in Hin as [Hin|Hin]; [auto|].
    apply (admitted_status w (SelectFiles files rnd)) in Hin. congruence.
  - intros Hin Hst. apply in_app_or in Hin as [Hin|Hin]; [auto|].
    apply (admitted_status w (PasteClipboard items clock rnd)) in Hin.
    congruence.
  - intros Hin. apply in_map_iff in Hin as (x & <- & Hx).
    unfold swapped. destruct (id x =? i)%string; [discriminate|auto].
  - intros Hin. apply in_map_iff in Hin as (x & <- & Hx).
    unfold markFailed. destruct (id x =? i)%string; [reflexivity|auto].
  - auto.
  - auto.
  - intros [].
  - intros Hin. apply filter_In in Hin as [Hin _]. auto.
Qed.

(** X2.  In every state a run reaches from the first render, an entry in
    [Error] state carries the message "Upscaling failed.", so that is the
    text of its overlay: the fallback "An error occurred" of line 230 is
    never shown. *)
Theorem error_entry_message
        (es : list Event) (w : World) (img : ManagedImage) :
  exec App_mount es = Some w ->
  In img (managedImages w) ->
  status img = Error ->
  errorMessage img = Some "Upscaling failed."
  /\ errorOverlay img = Some "Upscaling failed.".
Proof.
  intros Hrun Hin Hst.
  assert (Hmsg : errorMessage img = Some "Upscaling failed.").
  { revert img Hin Hst.
    apply (exec_preserves
             (fun w => forall img, In img (managedImages w) ->
                                   status img = Error ->
                                   errorMessage img
                                   = Some "Upscaling failed."))
      with (es := es) (w := App_mount);
      [intros w0 e _; apply error_message_step
      | exact Hrun
      | intros img []]. }
  split; [exact Hmsg|]. unfold errorOverlay. now rewrite Hst, Hmsg.
Qed.

Lemma error_entry_message_witness :
  exec App_mount
       [PasteClipboard (Some clipboard) noon half; UpscaleRejected pastedId]
  = Some failedWorld
  /\ In failedEntry (managedImages failedWorld)
  /\ status failedEntry = Error
  /\ errorOverlay failedEntry = Some "Upscaling failed.".
Proof.
  assert (Hrun : exec App_mount
                      [PasteClipboard (Some clipboard) noon half;
                       UpscaleRejected pastedId]
                 = Some failedWorld) by evaluate.
  assert (Hin : In failedEntry (managedImages failedWorld)).
  { vm_compute. left. reflexivity. }
  split; [exact Hrun|]. split; [exact Hin|]. split; [reflexivity|].
  exact (proj2 (error_entry_message _ failedWorld failedEntry
                                    Hrun Hin eq_refl)).
Defined.

Lemma message_only_on_error_step w e :
  enabled w e = true ->
  transformsTracked w ->
  (forall img, In img (managedImages w) ->
               errorMessage img <> None -> status img = Error) ->
  forall img, In img (managedImages (step w e)) ->
              errorMessage img <> None -> status img = Error.
Proof.
  intros Hen (_ & _ & Hleft) Hinv img. rewrite step_managedImages.
  destruct e as [files rnd|items clock rnd|i f|i| |failure| |i].
  - intros Hin Hmsg. apply in_app_or in Hin as [Hin|Hin]; [auto|].
    simpl in Hin. destruct files as [fs|]; [|destruct Hin].
    contradiction Hmsg. clear Hmsg. revert Hin.
    generalize 0, (nextUrl w), (filter (fun f => isImageType (type f)) fs).
    intros k u l. revert k u.
    induction l as [|f rest IH]; intros k u; simpl; [tauto|].
    intros [<-|Hin]; [reflexivity|eauto].
  - intros Hin Hmsg. apply in_app_or in Hin as [Hin|Hin]; [auto|].
    simpl in Hin. destruct items as [its|]; [|destruct Hin].
    contradiction Hmsg. clear Hmsg. revert Hin.
    generalize 0, (nextUrl w), (pastedImages clock 0 its).
    intros k u l. revert k u.
    induction l as [|f rest IH]; intros k u; simpl; [tauto|].
    intros [<-|Hin]; [reflexivity|eauto].
  - intros Hin. apply in_map_iff in Hin as (x & <- & Hx).
    unfold swapped. destruct (id x =? i)%string eqn:E; [|auto].
    simpl. intros Hmsg. exfalso.
    apply String.eqb_eq in E. simpl in Hen. apply mem_In in Hen.
    apply (Hleft x Hx); [|now rewrite E].
    rewrite (Hinv x Hx Hmsg). discriminate.
  - intros Hin. apply in_map_iff in Hin as (x & <- & Hx).
    unfold markFailed. destruct (id x =? i)%string; [reflexivity|auto].
  - auto.
  - auto.
  - intros [].
  - intros Hin. apply filter_In in Hin as [Hin _]. auto.
Qed.

(** X3.  In every state reached by a run in which no id was generated
    twice, an entry that carries an [errorMessage] is in [Error] state:
    the message is present only on failed entries. *)
Theorem message_only_on_error
        (es : list Event) (w : World) (img : ManagedImage) :
  exec App_mount es = Some w ->
  NoDup (issued w) ->
  In img (managedImages w) ->
  errorMessage img <> None ->
  status img = Error.
Proof.
  intros Hrun Hnd. revert img.
  apply (exec_invariant (fun _ => true)
           (fun w => (idsUnique w /\ transformsTracked w)
                     /\ forall img, In img (managedImages w) ->
                                    errorMessage img <> None ->
                                    status img = Error))
    with (es := es) (w := App_mount);
    [ | apply forallb_true_all | exact Hrun | exact Hnd | ].
  - intros w0 e _ Hen Hnd0 [[Hu Ht] Hinv]. split.
    + split; [now apply idsUnique_step | now apply transformsTracked_step].
    + now apply message_only_on_error_step.
  - split; [split; [apply idsUnique_mount | apply transformsTracked_mount]|].
    intros img [].
Qed.

Lemma message_only_on_error_witness :
  exec App_mount
       [PasteClipboard (Some clipboard) noon half; UpscaleRejected pastedId]
  = Some failedWorld
  /\ NoDup (issued failedWorld)
  /\ In failedEntry (managedImages failedWorld)
  /\ errorMessage failedEntry <> None
  /\ status failedEntry = Error.
Proof.
  assert (Hrun : exec App_mount
                      [PasteClipboard (Some clipboard) noon half;
                       UpscaleRejected pastedId]
                 = Some failedWorld) by evaluate.
  assert (Hnd : NoDup (issued failedWorld)).
  { apply distinct_NoDup. evaluate. }
  assert (Hin : In failedEntry (managedImages failedWorld)).
  { vm_compute. left. reflexivity. }
  assert (Hmsg : errorMessage failedEntry <> None) by discriminate.
  split; [exact Hrun|]. split; [exact Hnd|]. split; [exact Hin|].
  split; [exact Hmsg|].
  exact (message_only_on_error _ failedWorld failedEntry
                               Hrun Hnd Hin Hmsg).
Defined.

(** ** The assembly trigger *)

Lemma clickGeneratePdf_cases w :
  (pdfCalls (clickGeneratePdf w) = pdfCalls w
   /\ isGenerating (clickGeneratePdf w) = isGenerating w)
  \/ (isGenerating w = false
      /\ existsb isUpscaling (managedImages w) = false
      /\ readyContents (managedImages w) <> []
      /\ pdfCalls (clickGeneratePdf w)
         = pdfCalls w ++ [readyContents (managedImages w)]
      /\ isGenerating (clickGeneratePdf w) = true).
Proof.
  unfold clickGeneratePdf, generateDisabled.
  destruct (controlsRendered w); simpl; [|now left].
  destruct (isGenerating w) eqn:Hgen; simpl; [now left|].
  destruct (existsb isUpscaling (managedImages w)); simpl; [now left|].
  unfold handleGeneratePdf.
  destruct (List.length (imagesToProcess w) =? 0)%nat eqn:Hlen.
  - left. now split.
  - right. repeat split.
    + rewrite <- imagesToProcess_readyContents. intros Hnil.
      rewrite Hnil in Hlen. discriminate Hlen.
    + simpl. unfold imagesToProcess at 1. simpl.
      now rewrite <- imagesToProcess_readyContents.
Qed.

Lemma step_pdfCalls w e :
  pdfCalls (step w e) =
  match e with
  | ClickGenerate => pdfCalls (clickGeneratePdf w)
  | _ => pdfCalls w
  end.
Proof.
  destruct e as [[fs|] rnd|[its|] clock rnd|i f|i| |failure| |i];
    unfold step;
    rewrite ?handleFileChange_eq, ?handlePaste_eq, ?upscale_then_eq,
      ?handleClearImages_eq, ?handleRemoveImage_eq;
    unfold upscale_catch; try reflexivity;
    try (now destruct failure);
    now destruct (0 <? List.length (pastedImages clock 0 its))%nat.
Qed.

Lemma step_isGenerating w e :
  isGenerating (step w e) =
  match e with
  | ClickGenerate => isGenerating (clickGeneratePdf w)
  | PdfSettled _ => false
  | _ => isGenerating w
  end.
Proof.
  destruct e as [[fs|] rnd|[its|] clock rnd|i f|i| |failure| |i];
    unfold step;
    rewrite ?handleFileChange_eq, ?handlePaste_eq, ?upscale_then_eq,
      ?handleClearImages_eq, ?handleRemoveImage_eq;
    unfold upscale_catch; try reflexivity;
    try (now destruct failure);
    now destruct (0 <? List.length (pastedImages clock 0 its))%nat.
Qed.

(** X4.  Whatever the event, if handling it calls the assembly capability
    then the event is a click on the Generate PDF button, no assembly is
    awaited and no entry is in [Upscaling] state at that moment, and the
    one call made carries the content of the [Ready] entries, of which
    there is at least one. *)
Theorem assembly_only_from_enabled_click (w : World) (e : Event) :
  pdfCalls (step w e) <> pdfCalls w ->
  e = ClickGenerate
  /\ isGenerating w = false
  /\ existsb isUpscaling (managedImages w) = false
  /\ readyContents (managedImages w) <> []
  /\ pdfCalls (step w e) = pdfCalls w ++ [readyContents (managedImages w)].
Proof.
  rewrite step_pdfCalls.
  destruct e; try (intros H; now contradiction H).
  intros Hcall.
  destruct (clickGeneratePdf_cases w) as [[Hsame _]|(Hg & Hu & Hr & Hc & _)].
  - contradiction.
  - auto.
Qed.

Lemma assembly_only_from_enabled_click_witness :
  pdfCalls (step selectedWorld ClickGenerate) <> pdfCalls selectedWorld
  /\ isGenerating selectedWorld = false
  /\ pdfCalls (step selectedWorld ClickGenerate)
     = pdfCalls selectedWorld ++ [readyContents (managedImages selectedWorld)].
Proof.
  assert (H : pdfCalls (step selectedWorld ClickGenerate)
              <> pdfCalls selectedWorld).
  { intros E. vm_compute in E. discriminate E. }
  split; [exact H|].
  destruct (assembly_only_from_enabled_click selectedWorld ClickGenerate H)
    as (_ & Hg & _ & _ & Hc).
  split; [exact Hg | exact Hc].
Defined.

Lemma assemblies_counted es :
  forall w w',
    exec w es = Some w' ->
    List.length (pdfCalls w') + awaited w
    = List.length (pdfCalls w) + settledCount es + awaited w'.
Proof.
  induction es as [|e es IH]; intros w w' Hrun.
  - injection Hrun as <-. simpl. lia.
  - apply exec_cons in Hrun as [Hen Hrun]. specialize (IH _ _ Hrun).
    rewrite step_pdfCalls in IH. unfold awaited in *.
    rewrite step_isGenerating in IH.
    destruct e as [files rnd|items clock rnd|i f|i| |failure| |i];
      simpl settledCount; try lia.
    + destruct (clickGeneratePdf_cases w)
        as [[Hc Hg]|(Hg0 & _ & _ & Hc & Hg)];
        rewrite Hc, Hg in IH; [lia|].
      rewrite Hg0. rewrite length_app in IH. simpl in IH. lia.
    + simpl in Hen. rewrite Hen. lia.
Qed.

(** X5.  At the end of every run from the first render, the calls made
    to the assembly capability are those that have settled, plus one
    exactly when [isGenerating] is set: at most one assembly is awaited at
    any time, and the flag tells whether one is. *)
Theorem one_assembly_at_a_time (es : list Event) (w : World) :
  exec App_mount es = Some w ->
  List.length (pdfCalls w) = settledCount es + awaited w.
Proof.
  intros Hrun. pose proof (assemblies_counted es _ _ Hrun) as H.
  simpl in H. unfold awaited at 1 in H. simpl in H. lia.
Qed.

Lemma one_assembly_at_a_time_witness :
  exec App_mount retryRun = Some retryWorld
  /\ settledCount retryRun = 1
  /\ awaited retryWorld = 1
  /\ List.length (pdfCalls retryWorld)
     = settledCount retryRun + awaited retryWorld.
Proof.
  assert (Hrun : exec App_mount retryRun = Some retryWorld) by evaluate.
  split; [exact Hrun|]. split; [evaluate|]. split; [evaluate|].
  exact (one_assembly_at_a_time retryRun retryWorld Hrun).
Defined.

(** ** Pastes that admit nothing *)

Lemma acceptedBlobs_nil clock items :
  acceptedBlobs items = [] -> pastedImages clock 0 items = [].
Proof.
  intros Hnil. apply (map_eq_nil (fun f => (type f, data f))).
  now rewrite pastedImages_payload.
Qed.

(** X6.  A paste whose clipboard carries no image-typed item with a blob
    returns the state it was given: nothing is admitted, no handle is
    created, no transform is submitted and the banners stay as they
    were.  So does a paste event without clipboard items. *)
Theorem paste_without_image_is_noop
        (items : list DataTransferItem) (clock : nat -> nat)
        (rnd : nat -> string) (w : World) :
  acceptedBlobs items = [] ->
  handlePaste (Some items) clock rnd w = w
  /\ handlePaste None clock rnd w = w.
Proof.
  intros Hnil. split; [|reflexivity].
  unfold handlePaste. now rewrite (acceptedBlobs_nil clock items Hnil).
Qed.

Lemma paste_without_image_is_noop_witness :
  acceptedBlobs textOnly = []
  /\ handlePaste (Some textOnly) noon half failedWorld = failedWorld.
Proof.
  assert (H : acceptedBlobs textOnly = []) by evaluate.
  split; [exact H|].
  exact (proj1 (paste_without_image_is_noop textOnly noon half failedWorld H)).
Defined.

(** ** Completions after a removal or a clear *)




(** ** The handle registry under every event *)

Lemma present_split images x :
  NoDup (map id images) -> In x images ->
  exists before after,
    images = before ++ x :: after
    /\ ~ In (id x) (map id before)
    /\ ~ In (id x) (map id after).
Proof.
  intros Hnd Hin. destruct (in_split _ _ Hin) as (before & after & ->).
  exists before, after. split; [reflexivity|].
  rewrite map_app in Hnd. simpl in Hnd.
  apply NoDup_remove_2 in Hnd. rewrite in_app_iff in Hnd. tauto.
Qed.


















(** ** Success of a transform *)

(** X10.  The success continuation keeps the collection's length and, at
    every position, the entry's id and error message.  An entry that
    carries the transform's id gets the new content, the handle created
    for it and status [Ready]; every entry with another id is the entry
    it was.  The handle created is the only one, and the handles revoked
    are those the replaced entries held. *)
Theorem upscale_then_frame
        (entryId : string) (upscaledFile : File) (w : World)
        (k : nat) (img : ManagedImage) :
  nth_error (managedImages w) k = Some img ->
  List.length (managedImages (upscale_then entryId upscaledFile w))
  = List.length (managedImages w)
  /\ created (upscale_then entryId upscaledFile w)
     = created w ++ [nextUrl w]
  /\ revoked (upscale_then entryId upscaledFile w)
     = revoked w
         ++ map previewUrl (filter (hasId entryId) (managedImages w))
  /\ exists img',
      nth_error (managedImages (upscale_then entryId upscaledFile w)) k
      = Some img'
      /\ id img' = id img
      /\ errorMessage img' = errorMessage img
      /\ (id img = entryId ->
          file img' = upscaledFile
          /\ previewUrl img' = nextUrl w
          /\ status img' = Ready)
      /\ (id img <> entryId -> img' = img).
Proof.
  intros Hk. rewrite upscale_then_eq. simpl.
  split; [apply length_map|]. split; [reflexivity|]. split; [reflexivity|].
  exists (swapped entryId upscaledFile (nextUrl w) img).
  rewrite nth_error_map, Hk. simpl. split; [reflexivity|].
  unfold swapped. destruct (id img =? entryId)%string eqn:E.
  - apply String.eqb_eq in E. simpl.
    do 2 (split; [reflexivity|]). split; [now repeat split | intros Hne].
    contradiction.
  - apply String.eqb_neq in E.
    do 2 (split; [reflexivity|]). split; [intros He | reflexivity].
    contradiction.
Qed.

Lemma upscale_then_frame_witness :
  nth_error (managedImages mixedWorld) 1 = Some pastedEntry
  /\ managedImages (upscale_then pastedId enhanced mixedWorld)
     = [mkImage "a.png-0.5" photo 0 Ready None; settledEntry]
  /\ revoked (upscale_then pastedId enhanced mixedWorld) = [1]
  /\ created (upscale_then pastedId enhanced mixedWorld)
     = created mixedWorld ++ [nextUrl mixedWorld].
Proof.
  assert (H : nth_error (managedImages mixedWorld) 1 = Some pastedEntry)
    by evaluate.
  split; [exact H|]. split; [evaluate|]. split; [evaluate|].
  exact (proj1 (proj2 (upscale_then_frame pastedId enhanced mixedWorld
                                          1 pastedEntry H))).
Defined.

(** ** Removal of an entry *)

Lemma find_past_absent i before rest :
  ~ In i (map id before) ->
  find (hasId i) (before ++ rest) = find (hasId i) rest.
Proof.
  induction before as [|img before IH]; simpl; [reflexivity|].
  intros Hnot. destruct (hasId i img) eqn:E.
  - apply hasId_true in E. tauto.
  - apply IH. tauto.
Qed.

(** X11.  When no two entries share an id, [handleRemoveImage] called
    with the id of an entry takes that entry out and no other, keeps the
    others in their order, and revokes that entry's handle and no
    other. *)
Theorem removal_takes_one_entry (x : ManagedImage) (w : World) :
  NoDup (ids w) ->
  In x (managedImages w) ->
  exists before after,
    managedImages w = before ++ x :: after
    /\ managedImages (handleRemoveImage (id x) w) = before ++ after
    /\ revoked (handleRemoveImage (id x) w) = revoked w ++ [previewUrl x]
    /\ created (handleRemoveImage (id x) w) = created w.
Proof.
  intros Hids Hin.
  destruct (present_split _ x Hids Hin) as (before & after & Himages & Hb & Ha).
  exists before, after. split; [exact Himages|].
  rewrite handleRemoveImage_eq. simpl. rewrite Himages.
  assert (Hx : hasId (id x) x = true) by now apply hasId_true.
  rewrite (find_past_absent _ _ _ Hb). simpl. rewrite Hx.
  split; [|now split].
  rewrite filter_app. simpl. rewrite Hx. simpl.
  change (fun img : ManagedImage => negb (hasId (id x) img))
    with (fun img : ManagedImage => negb (id img =? id x)%string).
  now rewrite (filter_absent _ _ Hb), (filter_absent _ _ Ha).
Qed.

Lemma removal_takes_one_entry_witness :
  NoDup (ids mixedWorld)
  /\ In pastedEntry (managedImages mixedWorld)
  /\ managedImages (handleRemoveImage (id pastedEntry) mixedWorld)
     = [mkImage "a.png-0.5" photo 0 Ready None]
  /\ exists before after,
      managedImages mixedWorld = before ++ pastedEntry :: after
      /\ managedImages (handleRemoveImage (id pastedEntry) mixedWorld)
         = before ++ after
      /\ revoked (handleRemoveImage (id pastedEntry) mixedWorld)
         = revoked mixedWorld ++ [previewUrl pastedEntry]
      /\ created (handleRemoveImage (id pastedEntry) mixedWorld)
         = created mixedWorld.
Proof.
  assert (Hnd : NoDup (ids mixedWorld)).
  { apply distinct_NoDup. evaluate. }
  assert (Hin : In pastedEntry (managedImages mixedWorld)).
  { vm_compute. right. left. reflexivity. }
  split; [exact Hnd|]. split; [exact Hin|]. split; [evaluate|].
  exact (removal_takes_one_entry pastedEntry mixedWorld Hnd Hin).
Defined.

(** ** The names a paste synthesises *)

Lemma append_same_prefix (p a b : string) :
  (p ++ a)%string = (p ++ b)%string -> a = b.
Proof.
  induction p as [|c p IH]; simpl; [auto|].
  intros H. injection H as H. auto.
Qed.

Lemma decimal_digits n : digits (decimal n) = true.
Proof.
  unfold decimal. induction (Nat.to_uint n) as [|d IH|d IH|d IH|d IH|d IH
                                                |d IH|d IH|d IH|d IH|d IH];
    simpl NilEmpty.string_of_uint; [reflexivity|..];
    cbn [digits]; rewrite IH; reflexivity.
Qed.

Lemma decimal_inj n m : decimal n = decimal m -> n = m.
Proof.
  unfold decimal. intros H.
  apply (f_equal NilEmpty.uint_of_string) in H.
  rewrite !NilEmpty.usu in H. injection H as H.
  now apply DecimalNat.Unsigned.to_uint_inj.
Qed.

(** Two strings of digits followed by the same separator and anything:
    equal wholes have equal parts. *)
Lemma digits_then_separator (sep : ascii) (s1 s2 r1 r2 : string) :
  isDigit sep = false ->
  digits s1 = true -> digits s2 = true ->
  (s1 ++ String sep r1)%string = (s2 ++ String sep r2)%string ->
  s1 = s2 /\ r1 = r2.
Proof.
  intros Hsep. revert s2.
  induction s1 as [|c1 s1 IH]; intros [|c2 s2] H1 H2 E; simpl in *.
  - injection E as E. now split.
  - injection E as Ec E. subst c2.
    apply andb_prop in H2 as [H2 _]. congruence.
  - injection E as Ec E. subst c1.
    apply andb_prop in H1 as [H1 _]. congruence.
  - injection E as Ec E. subst c2.
    apply andb_prop in H1 as [_ H1]. apply andb_prop in H2 as [_ H2].
    destruct (IH s2 H1 H2 E) as [-> ->]. now split.
Qed.

Lemma pastedName_inj t1 i1 e1 t2 i2 e2 :
  pastedName t1 i1 e1 = pastedName t2 i2 e2 -> t1 = t2 /\ i1 = i2 /\ e1 = e2.
Proof.
  unfold pastedName. intros H. apply append_same_prefix in H.
  change (decimal t1 ++ String "-" (decimal i1 ++ String "." e1)
          = decimal t2 ++ String "-" (decimal i2 ++ String "." e2))%string
    in H.
  apply digits_then_separator in H as [Ht H];
    auto using decimal_digits.
  apply digits_then_separator in H as [Hi He];
    auto using decimal_digits.
  auto using decimal_inj.
Qed.

Lemma pastedImages_names clock items :
  forall j f,
    In f (pastedImages clock j items) ->
    exists k extension,
      j <= k /\ name f = pastedName (clock k) k extension.
Proof.
  induction items as [|it rest IH]; intros j f; simpl; [tauto|].
  assert (Hrest : In f (pastedImages clock (S j) rest) ->
                  exists k extension,
                    j <= k /\ name f = pastedName (clock k) k extension).
  { intros Hin. destruct (IH _ _ Hin) as (k & ext & Hk & Hname).
    exists k, ext. split; [lia | exact Hname]. }
  destruct (isImageType (itemType it)); [|exact Hrest].
  destruct (getAsFile it) as [blob|]; [|exact Hrest].
  intros [<-|Hin]; [|auto].
  eexists j, _. split; [lia | reflexivity].
Qed.

Lemma pastedImages_names_distinct clock items :
  forall j, NoDup (map name (pastedImages clock j items)).
Proof.
  induction items as [|it rest IH]; intros j; simpl; [constructor|].
  destruct (isImageType (itemType it)); [|apply IH].
  destruct (getAsFile it) as [blob|]; [|apply IH].
  simpl. constructor; [|apply IH].
  intros Hin. apply in_map_iff in Hin as (f & Hname & Hin).
  destruct (pastedImages_names clock rest _ _ Hin) as (k & ext & Hk & Hf).
  rewrite Hf in Hname.
  match type of Hname with
  | _ = ?built =>
      match built with
      | context [String "." ?e] =>
          change built with (pastedName (clock j) j e) in Hname
      end
  end.
  apply pastedName_inj in Hname as (_ & Hi & _). lia.
Qed.

(** X12.  The files one paste builds bear pairwise distinct names,
    whatever the clipboard holds and whatever [Date.now()] returns from
    one iteration to the next: the position in the clipboard, which the
    name ends with before its extension, tells them apart. *)
Theorem pasted_names_distinct
        (clock : nat -> nat) (items : list DataTransferItem) :
  NoDup (map name (pastedImages clock 0 items))
  /\ forall rnd w,
      map (fun img => name (file img))
          (admitted w (PasteClipboard (Some items) clock rnd))
      = map name (pastedImages clock 0 items).
Proof.
  split; [apply pastedImages_names_distinct|].
  intros rnd w. simpl.
  rewrite <- (entriesFrom_file Upscaling rnd (pastedImages clock 0 items)
                               0 (nextUrl w)) at 2.
  now rewrite map_map.
Qed.

(** ** Entries that have settled *)

Lemma step_frozen w e x y :
  enabled w e = true ->
  NoDup (issued (step w e)) ->
  idsUnique w -> transformsTracked w ->
  In x (managedImages w) -> In y (managedImages (step w e)) ->
  id x = id y ->
  status x <> Upscaling ->
  y = x.
Proof.
  rewrite step_issued, step_managedImages.
  intros Hen Hnd [Hincl Hids] (_ & _ & Hleft) Hx Hy E Hst.
  assert (Hsame : In y (managedImages w) -> y = x).
  { intros Hy'. symmetry. exact (same_id_same_entry _ x y Hids Hx Hy' E). }
  assert (Hnew : ~ In y (admitted w e)).
  { intros Hy'. eapply NoDup_app_disjoint; [exact Hnd| |].
    - apply Hincl. unfold ids. apply in_map. exact Hx.
    - rewrite E. now apply in_map. }
  assert (Hidle : forall i, mem i (inFlight w) = true -> id x <> i).
  { intros i Hi <-. apply mem_In in Hi. exact (Hleft x Hx Hst Hi). }
  destruct e as [files rnd|items clock rnd|i f|i| |failure| |i]; auto.
  - apply in_app_or in Hy as [Hy|Hy]; [auto | contradiction].
  - apply in_app_or in Hy as [Hy|Hy]; [auto | contradiction].
  - apply in_map_iff in Hy as (x' & <- & Hx').
    rewrite swapped_id in E.
    rewrite <- (same_id_same_entry _ x x' Hids Hx Hx' E).
    unfold swapped. destruct (id x =? i)%string eqn:Ei; [|reflexivity].
    apply String.eqb_eq in Ei. contradiction (Hidle i Hen).
  - apply in_map_iff in Hy as (x' & <- & Hx').
    rewrite markFailed_id in E.
    rewrite <- (same_id_same_entry _ x x' Hids Hx Hx' E).
    unfold markFailed. destruct (id x =? i)%string eqn:Ei; [|reflexivity].
    apply String.eqb_eq in Ei. contradiction (Hidle i Hen).
  - destruct Hy.
  - apply filter_In in Hy as [Hy _]. auto.
Qed.

Lemma exec_frozen es :
  forall w w' x y,
    exec w es = Some w' -> NoDup (issued w') ->
    idsUnique w -> transformsTracked w ->
    In x (managedImages w) -> In y (managedImages w') ->
    id x = id y ->
    status x <> Upscaling ->
    y = x.
Proof.
  induction es as [|e es IH]; intros w w' x y Hrun Hnd Hu Ht Hx Hy E Hst.
  - injection Hrun as <-. symmetry.
    exact (same_id_same_entry _ x y (proj2 Hu) Hx Hy E).
  - apply exec_cons in Hrun as [Hen Hrun].
    assert (Hnd1 : NoDup (issued (step w e))).
    { destruct (exec_issued es _ _ Hrun) as [l Hl]. rewrite Hl in Hnd.
      now apply NoDup_app_remove_r in Hnd. }
    destruct (in_dec string_dec (id x) (ids (step w e))) as [Hin|Hout].
    + apply in_map_iff in Hin as (x1 & E1 & Hx1).
      assert (Hx1x : x1 = x) by (apply (step_frozen w e); auto).
      subst x1.
      apply (IH (step w e) w'); auto using idsUnique_step,
                                transformsTracked_step.
    + exfalso.
      apply (exec_absent_stays es _ _ (id x) Hrun Hnd).
      * rewrite step_issued. apply in_or_app. left.
        apply (proj1 Hu). unfold ids. now apply in_map.
      * exact Hout.
      * rewrite E. unfold ids. now apply in_map.
Qed.

(** X13.  Take a run from the first render to [w1] and on to [w2] in
    which no id was generated twice.  An entry of [w1] that is [Ready] or
    in [Error] state and is still in the collection in [w2] is there
    unchanged: same content, same preview handle, same status, same
    message.  In particular the content and the preview of a selected
    file are never replaced. *)
Theorem settled_entry_is_frozen
        (es1 es2 : list Event) (w1 w2 : World) (x y : ManagedImage) :
  exec App_mount es1 = Some w1 ->
  exec w1 es2 = Some w2 ->
  NoDup (issued w2) ->
  In x (managedImages w1) -> In y (managedImages w2) ->
  id x = id y ->
  status x <> Upscaling ->
  y = x.
Proof.
  intros Hrun1 Hrun2 Hnd Hx Hy E Hst.
  assert (Hnd1 : NoDup (issued w1)).
  { destruct (exec_issued es2 _ _ Hrun2) as [l Hl]. rewrite Hl in Hnd.
    now apply NoDup_app_remove_r in Hnd. }
  destruct (tracked_exec es1 w1 Hrun1 Hnd1) as [Hu Ht].
  apply (exec_frozen es2 w1 w2); auto.
Qed.

Lemma settled_entry_is_frozen_witness :
  exec App_mount [SelectFiles (Some [photo]) half] = Some selectedWorld
  /\ exec selectedWorld
          [PasteClipboard (Some clipboard) noon half;
           UpscaleResolved pastedId enhanced]
     = Some resolvedWorld
  /\ NoDup (issued resolvedWorld)
  /\ In selectedEntry (managedImages selectedWorld)
  /\ In (nth 0 (managedImages resolvedWorld) pastedEntry)
        (managedImages resolvedWorld)
  /\ id selectedEntry = id (nth 0 (managedImages resolvedWorld) pastedEntry)
  /\ status selectedEntry <> Upscaling
  /\ nth 0 (managedImages resolvedWorld) pastedEntry = selectedEntry.
Proof.
  assert (Hrun1 : exec App_mount [SelectFiles (Some [photo]) half]
                  = Some selectedWorld) by evaluate.
  assert (Hrun2 : exec selectedWorld
                       [PasteClipboard (Some clipboard) noon half;
                        UpscaleResolved pastedId enhanced]
                  = Some resolvedWorld) by evaluate.
  assert (Hnd : NoDup (issued resolvedWorld)).
  { apply distinct_NoDup. evaluate. }
  assert (Hx : In selectedEntry (managedImages selectedWorld)).
  { vm_compute. left. reflexivity. }
  assert (Hy : In (nth 0 (managedImages resolvedWorld) pastedEntry)
                  (managedImages resolvedWorld)).
  { vm_compute. left. reflexivity. }
  assert (E : id selectedEntry
              = id (nth 0 (managedImages resolvedWorld) pastedEntry))
    by evaluate.
  assert (Hst : status selectedEntry <> Upscaling) by discriminate.
  split; [exact Hrun1|]. split; [exact Hrun2|]. split; [exact Hnd|].
  split; [exact Hx|]. split; [exact Hy|]. split; [exact E|].
  split; [exact Hst|].
  exact (settled_entry_is_frozen
           [SelectFiles (Some [photo]) half]
           [PasteClipboard (Some clipboard) noon half;
            UpscaleResolved pastedId enhanced]
           selectedWorld resolvedWorld selectedEntry
           (nth 0 (managedImages resolvedWorld) pastedEntry)
           Hrun1 Hrun2 Hnd Hx Hy E Hst).
Defined.

(** ** Retrying the assembly *)




